(** * obfuscator/peek_reader.py: a shallow embedding

    The module anonymises the target graph printed by a build tool: it
    parses target addresses, renames path components through a memoising
    [RenameMap], and synthesises import stubs for the inferred
    dependencies.  Python [str] is modelled by [string] (the separators
    [/], [:], [#] and [.] are single characters in it), [dict] by [gmap],
    [set] by [gset], [Counter] by a [gmap] into [nat], and a raised
    exception by the [Raise] constructor of [result].

    Embedded: [last_path_part], [Address], [RenameMap], [TargetInfo],
    [TargetWithContent], [rename_python_module], [render_imports],
    [handle_python_module], [type_to_handler], [rename_python_targets].
    Left out: reading JSON ([TargetInfo.from_dict], [load_peek_data]),
    writing files ([write_python_targets], [main]), and
    [relative_path_to_components], which nothing calls. *)

From Stdlib Require Import Ascii.
From stdpp Require Import gmap strings list pretty.

(** ** Exceptions *)

Inductive exn : Type :=
  | ValueError (msg : string)
  | IndexError
  | KeyError (key : string).

Inductive result (A : Type) : Type :=
  | Ok (a : A)
  | Raise (e : exn).
Arguments Ok {A} a.
Arguments Raise {A} e.

(** ** The [str] methods the module calls *)

Module Str.

(** [s.split(sep)] for a one-character separator, as its first field and
    the remaining fields: the result of [split] is never empty. *)
Fixpoint fields (sep : ascii) (s : string) : string * list string :=
  match s with
  | "" => ("", [])
  | String c s' =>
      let (h, t) := fields sep s' in
      if decide (c = sep) then ("", h :: t) else (String c h, t)
  end.

Definition split (sep : ascii) (s : string) : list string :=
  let (h, t) := fields sep s in h :: t.

(** The cut at the last separator, if there is one. *)
Fixpoint rcut (sep : ascii) (s : string) : option (string * string) :=
  match s with
  | "" => None
  | String c s' =>
      match rcut sep s' with
      | Some (h, t) => Some (String c h, t)
      | None => if decide (c = sep) then Some ("", s') else None
      end
  end.

(** [s.rsplit(sep, 1)] *)
Definition rsplit1 (sep : ascii) (s : string) : list string :=
  match rcut sep s with
  | Some (h, t) => [h; t]
  | None => [s]
  end.

(** [s.removesuffix(suf)] *)
Fixpoint removesuffix (suf s : string) : string :=
  if decide (s = suf) then ""
  else match s with
       | "" => ""
       | String c s' => String c (removesuffix suf s')
       end.

(** [sep.join(l)] *)
Fixpoint join (sep : string) (l : list string) : string :=
  match l with
  | [] => ""
  | x :: l' =>
      match l' with
      | [] => x
      | _ :: _ => x +:+ sep +:+ join sep l'
      end
  end.

(** What follows the prefix [pre], when [s] starts with it. *)
Fixpoint strip_prefix (pre s : string) : option string :=
  match pre, s with
  | "", _ => Some s
  | String _ _, "" => None
  | String a pre', String c s' =>
      if decide (a = c) then strip_prefix pre' s' else None
  end.

(** Truthiness of a [str]: [s or d]. *)
Definition or_else (s d : string) : string :=
  if decide (s = "") then d else s.

End Str.

(** [l[-1]] *)
Definition index_last {A} (l : list A) : result A :=
  match last l with
  | Some x => Ok x
  | None => Raise IndexError
  end.

Definition last_path_part (s : string) : string :=
  default "" (last (Str.rsplit1 "/" s)).

(** ** Address *)

Record Address : Type := mkAddress {
  path : string;
  name : string;
  subtarget : string;
}.

(** *** [Address.capture_pattern]

    [(?://)?(?P<path>[^:#]+)(?::(?P<name>[^:#]+))?(?:\#(?P<subtarget>[^:#]+))?]
    matched with [re.match]: anchored at the start only. *)

Module Re.

(** The class [[^:#]]. *)
Definition not_sep (c : ascii) : bool :=
  negb (bool_decide (c = ":"%char) || bool_decide (c = "#"%char)).

(** The longest prefix in the class, and what follows it. *)
Fixpoint span (s : string) : string * string :=
  match s with
  | "" => ("", "")
  | String c s' =>
      if not_sep c then let (t, r) := span s' in (String c t, r)
      else ("", s)
  end.

(** [[^:#]+]: greedy, at least one character. *)
Definition token (s : string) : option (string * string) :=
  match span s with
  | ("", _) => None
  | (t, r) => Some (t, r)
  end.

(** [(?:c(?P<g>[^:#]+))?]: the group takes part or the position stays. *)
Definition opt_group (c : ascii) (s : string) : option string * string :=
  match s with
  | String c' s' =>
      if decide (c' = c) then
        match token s' with
        | Some (t, r) => (Some t, r)
        | None => (None, s)
        end
      else (None, s)
  | "" => (None, s)
  end.

Record groups : Type := mkGroups {
  g_path : string;
  g_name : option string;
  g_subtarget : option string;
}.

(** The pattern after its optional root marker. *)
Definition body (s : string) : option groups :=
  match token s with
  | None => None
  | Some (p, r) =>
      let (n, r') := opt_group ":" r in
      let (u, _) := opt_group "#" r' in
      Some (mkGroups p n u)
  end.

(** The greedy [(?://)?] first consumes the marker and backtracks to the
    empty match when the body fails after it. *)
Definition capture_pattern_match (s : string) : option groups :=
  match Str.strip_prefix "//" s with
  | Some s' =>
      match body s' with
      | Some m => Some m
      | None => body s
      end
  | None => body s
  end.

End Re.

(** [Address.from_str]; the message of the [ValueError] carries [s] itself
    where Python prints its [repr]. *)
Definition from_str (s : string) : result Address :=
  match Re.capture_pattern_match s with
  | None => Raise (ValueError ("cannot parse address from " +:+ s))
  | Some m =>
      let path := Re.g_path m in
      let name :=
        match Re.g_name m with
        | None => ""
        | Some n =>
            if decide (n = "") then ""
            else if decide (n = last_path_part path) then "" else n
        end in
      let subtarget := default "" (Re.g_subtarget m) in
      Ok (mkAddress path name subtarget)
  end.

(** [Address.__str__] *)
Definition to_str (a : Address) : string :=
  let path_ := Str.or_else (path a) "//" in
  let name_ := Str.or_else (name a) (last_path_part (path a)) in
  let subtarget_ :=
    if decide (subtarget a = "") then "" else "#" +:+ subtarget a in
  path_ +:+ ":" +:+ name_ +:+ subtarget_.

(** ** RenameMap

    [gen_name] draws pseudonyms from an outside source; the source's hidden
    state is the field [rng], and one draw is the function [gen_name] of the
    section.  [_map] is the memo dictionary. *)

Record RenameMap (G : Type) : Type := mkRenameMap {
  rng : G;
  _map : gmap string string;
}.
Arguments mkRenameMap {G} rng _map.
Arguments rng {G} r.
Arguments _map {G} r.

(** ** TargetInfo and TargetWithContent

    [other] keeps every further field of the input record; its values are
    never inspected, so their type [Any] is a parameter. *)

Record TargetInfo (Any : Type) : Type := mkTargetInfo {
  address : Address;
  target_type : string;
  dependencies : list string;
  dependencies_raw : list string;
  other : gmap string Any;
}.
Arguments mkTargetInfo {Any}.
Arguments address {Any} t.
Arguments target_type {Any} t.
Arguments dependencies {Any} t.
Arguments dependencies_raw {Any} t.
Arguments other {Any} t.

(** The subclass adds one field to the inherited ones. *)
Record TargetWithContent (Any : Type) : Type := mkTargetWithContent {
  base :> TargetInfo Any;
  content : string;
}.
Arguments mkTargetWithContent {Any}.
Arguments base {Any} t.
Arguments content {Any} t.

(** ** Import synthesis *)

(** The one-character string ["\n"]. *)
Definition newline : string := String "010" "".

(** The two f-strings of [render_imports]. *)
Definition import_line (from_ import_ alias : string) : string :=
  if decide (from_ = "") then
    "import " +:+ import_ +:+ " as " +:+ alias
  else
    "from " +:+ from_ +:+ " import " +:+ import_ +:+ " as " +:+ alias.

(** [Counter.__getitem__]: a missing key counts zero. *)
Definition count_of (seen : gmap string nat) (key : string) : nat :=
  default 0 (seen !! key).

(** [Counter.update([key])] *)
Definition count_up (seen : gmap string nat) (key : string) : gmap string nat :=
  <[key := S (count_of seen key)]> seen.

(** The body of the generator, from the counter [seen] on.  The consumer
    drains the generator, so an exception anywhere loses the lines yielded
    before it. *)
Fixpoint render_imports_from (seen : gmap string nat) (deps : list string)
  : result (list string) :=
  match deps with
  | [] => Ok []
  | dep :: deps' =>
      let parts := Str.split "/" (Str.removesuffix ".py" dep) in
      match parts with
      | _ :: _ =>
          let froms := removelast parts in
          let import_ := List.last parts "" in
          if decide (import_ = "__init__") then render_imports_from seen deps'
          else
            let from_ := Str.join "." froms in
            let seen' := count_up seen import_ in
            let alias := import_ +:+ pretty (count_of seen' import_) in
            match render_imports_from seen' deps' with
            | Ok lines => Ok (import_line from_ import_ alias :: lines)
            | Raise e => Raise e
            end
      | [] => Raise (ValueError "zero-length dependency address")
      end
  end.

Definition render_imports (deps : list string) : result (list string) :=
  render_imports_from ∅ deps.

(** ** Renaming *)

Section Renaming.

Context {G : Type} (gen_name : G → string * G).

Definition assign_name (key : string) (rm : RenameMap G)
  : string * RenameMap G :=
  match _map rm !! key with
  | Some v => (v, rm)
  | None =>
      let (v, g) := gen_name (rng rm) in
      (v, mkRenameMap g (<[key := v]> (_map rm)))
  end.

Fixpoint assign_many (keys : list string) (rm : RenameMap G)
  : list string * RenameMap G :=
  match keys with
  | [] => ([], rm)
  | k :: ks =>
      let (v, rm1) := assign_name k rm in
      let (vs, rm2) := assign_many ks rm1 in
      (v :: vs, rm2)
  end.

Definition mapping (rm : RenameMap G) : gmap string string := _map rm.

Definition reserved_leaf (s : string) : bool :=
  bool_decide (s ∈ ["__init__"; "__main__"]).

Definition rename_python_module (path : string) (rm : RenameMap G)
  : result (string * RenameMap G) :=
  let path_parts := Str.split "/" (Str.removesuffix ".py" path) in
  match index_last path_parts with
  | Raise e => Raise e
  | Ok leaf =>
      let (renamed_parts, rm') :=
        if reserved_leaf leaf then
          let (rs, rm') := assign_many (removelast path_parts) rm in
          (rs ++ [leaf], rm')
        else assign_many path_parts rm in
      Ok (Str.join "/" renamed_parts +:+ ".py", rm')
  end.

(** The list comprehension over the inferred dependencies. *)
Fixpoint rename_each (xs : list string) (rm : RenameMap G)
  : result (list string * RenameMap G) :=
  match xs with
  | [] => Ok ([], rm)
  | x :: xs' =>
      match rename_python_module x rm with
      | Raise e => Raise e
      | Ok (y, rm1) =>
          match rename_each xs' rm1 with
          | Raise e => Raise e
          | Ok (ys, rm2) => Ok (y :: ys, rm2)
          end
      end
  end.

(** ** The handler and the pipeline

    A Python [set] is iterated in an order the language leaves open;
    [set_iter] is that order, known only to enumerate the set. *)

Context (set_iter : gset string → list string).
Context {Any : Type}.

Definition handle_python_module
    (info : TargetInfo Any) (target_type_ : string) (rm : RenameMap G)
  : result (TargetWithContent Any * RenameMap G) :=
  match rename_python_module (path (address info)) rm with
  | Raise e => Raise e
  | Ok (new_path, rm1) =>
      let new_address :=
        mkAddress new_path (name (address info)) (subtarget (address info)) in
      let inferred_deps : gset string :=
        list_to_set (dependencies info) ∖ list_to_set (dependencies_raw info) in
      match rename_each (set_iter inferred_deps) rm1 with
      | Raise e => Raise e
      | Ok (renamed_deps, rm2) =>
          match render_imports renamed_deps with
          | Raise e => Raise e
          | Ok lines =>
              let content := Str.join newline (lines ++ [""]) in
              Ok (mkTargetWithContent
                    (mkTargetInfo new_address (target_type info)
                       renamed_deps [] (other info))
                    content,
                  rm2)
          end
      end
  end.

Definition handler : Type :=
  TargetInfo Any → string → RenameMap G
  → result (TargetWithContent Any * RenameMap G).

Definition type_to_handler : gmap string handler :=
  {[ "python_source" := handle_python_module;
     "python_test" := handle_python_module ]}.

(** The comprehension of [rename_python_targets]: the records in order,
    every eligible one handled with the map the earlier ones left. *)
Fixpoint rename_targets_from (rm : RenameMap G) (peek_data : list (TargetInfo Any))
  : result (list (TargetWithContent Any) * RenameMap G) :=
  match peek_data with
  | [] => Ok ([], rm)
  | ti :: rest =>
      if bool_decide (target_type ti ∈ dom type_to_handler) then
        match type_to_handler !! target_type ti with
        | None => Raise (KeyError (target_type ti))
        | Some h =>
            match h ti (target_type ti) rm with
            | Raise e => Raise e
            | Ok (twc, rm1) =>
                match rename_targets_from rm1 rest with
                | Raise e => Raise e
                | Ok (twcs, rm2) => Ok (twc :: twcs, rm2)
                end
            end
        end
      else rename_targets_from rm rest
  end.

(** [RenameMap()]: a new, empty dictionary; [g] is the state the name
    source is in when the run starts. *)
Definition RenameMap_new (g : G) : RenameMap G := mkRenameMap g ∅.

Definition rename_python_targets (g : G) (peek_data : list (TargetInfo Any))
  : result (list (TargetWithContent Any)) :=
  match rename_targets_from (RenameMap_new g) peek_data with
  | Ok (twcs, _) => Ok twcs
  | Raise e => Raise e
  end.

End Renaming.

(** * The vocabulary of the statements *)

(** The components of a module path: [path.removesuffix(".py").split("/")]. *)
Definition components (path : string) : list string :=
  Str.split "/" (Str.removesuffix ".py" path).

(** No character of the string is [:] or [#]. *)
Fixpoint sep_free (s : string) : bool :=
  match s with
  | "" => true
  | String c s' => Re.not_sep c && sep_free s'
  end.

(** Where a run of the class [[^:#]] has to stop. *)
Definition boundary (r : string) : Prop :=
  match r with
  | "" => True
  | String c _ => Re.not_sep c = false
  end.

(** The two optional groups, read off what follows the path. *)
Definition groups_after (r : string) : option string * option string :=
  let (n, r') := Re.opt_group ":" r in (n, (Re.opt_group "#" r').1).

(** The path without its root marker, when text follows the marker. *)
Definition unmarked (p : string) : string :=
  match Str.strip_prefix "//" p with
  | Some (String c p') => String c p'
  | _ => p
  end.

Definition root_marked (p : string) : bool :=
  match Str.strip_prefix "//" p with
  | Some (String _ _) => true
  | _ => false
  end.

(** [name = "" if not name or name == last_path_part(path) else name] *)
Definition normal_name (q : string) (n : option string) : string :=
  match n with
  | None => ""
  | Some n =>
      if decide (n = "") then ""
      else if decide (n = last_path_part q) then "" else n
  end.

(** What the parser guarantees about the address it returns. *)
Definition well_formed (a : Address) : Prop :=
  path a ≠ "" ∧ sep_free (path a) = true ∧ sep_free (name a) = true
  ∧ sep_free (subtarget a) = true
  ∧ (name a ≠ "" → name a ≠ last_path_part (path a)).

(** The name segment [__str__] prints. *)
Definition name_segment (a : Address) : string :=
  Str.or_else (name a) (last_path_part (path a)).

(** The canonical strings: what [__str__] prints for an address whose
    fields hold no [:] and no [#], whose path is not empty and carries no
    root marker of its own, and whose name segment is there. *)
Definition canonical (s : string) : Prop :=
  ∃ a,
    s = to_str a
    ∧ path a ≠ "" ∧ root_marked (path a) = false
    ∧ sep_free (path a) = true ∧ sep_free (name a) = true
    ∧ sep_free (subtarget a) = true
    ∧ name_segment a ≠ "".

(** Parse, then serialise. *)
Definition reserialize (s : string) : result string :=
  match from_str s with
  | Ok a => Ok (to_str a)
  | Raise e => Raise e
  end.

(** What a finished dictionary holds for a key. *)
Definition pseudonym (M : gmap string string) (key : string) : string :=
  default "" (M !! key).

(** The renamed path read off a dictionary, with no draw from the name
    source: every component is replaced but a reserved leaf. *)
Definition rename_with (M : gmap string string) (path : string) : string :=
  let parts := components path in
  let leaf := List.last parts "" in
  let renamed_parts :=
    if reserved_leaf leaf then (pseudonym M <$> removelast parts) ++ [leaf]
    else pseudonym M <$> parts in
  Str.join "/" renamed_parts +:+ ".py".

(** The components a renaming looks up. *)
Definition renamed_keys (path : string) : list string :=
  let parts := components path in
  if reserved_leaf (List.last parts "") then removelast parts else parts.

(** An edge as [render_imports] takes it apart: [*froms, import_ = parts]. *)
Definition edge_of (dep : string) : list string * string :=
  let parts := components dep in (removelast parts, List.last parts "").

(** The edges that get an import line, in the order they are processed. *)
Definition imported (deps : list string) : list (list string * string) :=
  filter (λ e, e.2 ≠ "__init__") (edge_of <$> deps).

Definition occurrences (x : string) (l : list string) : nat :=
  length (filter (x =.) l).

(** The alias of the [i]-th imported edge, whose leaf is [leaf]: the leaf
    and one more than the number of earlier edges with that leaf. *)
Definition alias_at (deps : list string) (i : nat) (leaf : string) : string :=
  leaf +:+ pretty (S (occurrences leaf (take i ((imported deps).*2)))).

Section Vocabulary.

Context {G : Type} (gen_name : G → string * G).

(** [later rm rm']: the same [RenameMap] object, some calls of
    [assign_name] later. *)
Inductive later : RenameMap G → RenameMap G → Prop :=
  | later_refl rm : later rm rm
  | later_assign key rm rm' :
      later (assign_name gen_name key rm).2 rm' → later rm rm'.

Context (set_iter : gset string → list string) {Any : Type}.

(** The edges the handler keeps, in the order it renames them. *)
Definition kept_edges (info : TargetInfo Any) : list string :=
  set_iter (list_to_set (dependencies info)
            ∖ list_to_set (dependencies_raw info)).

(** [out] is the record [ti] anonymised under the dictionary [M]. *)
Definition anonymised (M : gmap string string)
    (ti : TargetInfo Any) (out : TargetWithContent Any) : Prop :=
  address out
    = mkAddress (rename_with M (path (address ti)))
        (name (address ti)) (subtarget (address ti))
  ∧ target_type out = target_type ti
  ∧ dependencies out = rename_with M <$> kept_edges ti
  ∧ dependencies_raw out = []
  ∧ other out = other ti
  ∧ ∃ lines,
      render_imports (dependencies out) = Ok lines
      ∧ content out = Str.join newline (lines ++ [""]).

(** The records the type table recognises. *)
Definition eligible (ti : TargetInfo Any) : bool :=
  bool_decide (target_type ti ∈ ["python_source"; "python_test"]).

End Vocabulary.

(** * Examples to run the definitions on *)

(** A name source for examples: the pseudonyms [n0], [n1], ... *)
Definition counting_names (k : nat) : string * nat := ("n" +:+ pretty k, S k).

(** A name source that always draws the same name. *)
Definition fixed_name (g : unit) : string * unit := ("x", g).

(** A target with one authored edge, [a], and two inferred ones. *)
Definition example_target : TargetInfo unit :=
  mkTargetInfo (mkAddress "pkg/a.py" "lib" "gen") "python_source"
    ["a"; "b"; "c"] ["a"] ∅.

(** * The rest of the module *)

(** ** relative_path_to_components

    The argument is a [PurePath] the function asserts to be relative; such
    a path is the tuple of its parts.  [pure_name] is [PurePath.name] and
    [pure_parents] is [PurePath.parents]: the ancestors, the nearest first,
    down to the empty path [.]. *)

Definition pure_name (p : list string) : string := default "" (last p).

Definition pure_parents (p : list string) : list (list string) :=
  (λ k, take k p) <$> reverse (seq 0 (length p)).

(** The generator, drained: [*named_parents, _ = parents] drops the last
    ancestor, the loop yields the names of the others in path order, and
    the name of the path itself comes last.  Only the empty path has no
    parents, and it prints as [.] in the message. *)
Definition relative_path_to_components (relpath : list string)
  : result (list string) :=
  let parents := pure_parents relpath in
  match parents with
  | [] => Raise (ValueError "Path with no parents .")
  | _ :: _ =>
      let named_parents := removelast parents in
      Ok ((pure_name <$> reverse named_parents) ++ [pure_name relpath])
  end.

(** ** TargetInfo.from_dict

    A value of the input record, as far as the dataclass's annotations
    reach: [None], a [str], a list of [str], or anything else. *)

Inductive value (Any : Type) : Type :=
  | VNone
  | VStr (s : string)
  | VList (l : list string)
  | VOther (a : Any).
Arguments VNone {Any}.
Arguments VStr {Any} s.
Arguments VList {Any} l.
Arguments VOther {Any} a.

(** What a call leaves: a result, or [Untyped] for a record that holds a
    value of another type than the annotation of its field.  Python raises
    [TypeError] on such an address and carries any other such value along
    unchecked; this embedding follows neither. *)
Inductive outcome (A : Type) : Type :=
  | Done (r : result A)
  | Untyped.
Arguments Done {A} r.
Arguments Untyped {A}.

Section FromDict.

Context {Any : Type} (truthy : Any → bool).

(** [v or ()] for a field annotated [Sequence[str]]. *)
Definition seq_or_empty (v : value Any) : option (list string) :=
  match v with
  | VNone => Some []
  | VList l => Some l
  | VStr s => if decide (s = "") then Some [] else None
  | VOther a => if truthy a then None else Some []
  end.

(** [d = dict(d)] copies the mapping, so the pops below touch the copy
    only; [d.pop(k)] is a lookup with [KeyError] and a [delete]. *)
Definition from_dict (d : gmap string (value Any))
  : outcome (TargetInfo (value Any)) :=
  match d !! "address" with
  | None => Done (Raise (KeyError "address"))
  | Some (VStr s) =>
      let d1 := delete "address" d in
      match from_str s with
      | Raise e => Done (Raise e)
      | Ok address =>
          match d1 !! "target_type" with
          | None => Done (Raise (KeyError "target_type"))
          | Some vt =>
              let d2 := delete "target_type" d1 in
              match d2 !! "dependencies" with
              | None => Done (Raise (KeyError "dependencies"))
              | Some vd =>
                  let d3 := delete "dependencies" d2 in
                  let vr := default VNone (d3 !! "dependencies_raw") in
                  let d4 := delete "dependencies_raw" d3 in
                  match vt, seq_or_empty vd, seq_or_empty vr with
                  | VStr target_type, Some dependencies, Some dependencies_raw =>
                      Done (Ok (mkTargetInfo address target_type
                                  dependencies dependencies_raw d4))
                  | _, _, _ => Untyped
                  end
              end
          end
      end
  | Some _ => Untyped
  end.

(** The comprehension of [load_peek_data], over the records [json.load]
    returned. *)
Fixpoint load_peek_records (peek_json : list (gmap string (value Any)))
  : outcome (list (TargetInfo (value Any))) :=
  match peek_json with
  | [] => Done (Ok [])
  | d :: rest =>
      match from_dict d with
      | Untyped => Untyped
      | Done (Raise e) => Done (Raise e)
      | Done (Ok ti) =>
          match load_peek_records rest with
          | Untyped => Untyped
          | Done (Raise e) => Done (Raise e)
          | Done (Ok tis) => Done (Ok (ti :: tis))
          end
      end
  end.

End FromDict.

(** ** More vocabulary *)

(** The character [c] does not occur in the string. *)
Fixpoint char_free (c : ascii) (s : string) : bool :=
  match s with
  | "" => true
  | String x s' => negb (bool_decide (x = c)) && char_free c s'
  end.

(** The lines of a file body, every one closed by a newline. *)
Definition unlines (lines : list string) : string :=
  foldr (λ l acc, l +:+ newline +:+ acc) "" lines.

(** The four keys [from_dict] pops. *)
Definition popped_keys : list string :=
  ["address"; "target_type"; "dependencies"; "dependencies_raw"].

(** Two module records, one depending on the other, and a record of
    another type between them; and what the pipeline makes of them with
    [counting_names]. *)
Definition example_peek : list (TargetInfo unit) :=
  [mkTargetInfo (mkAddress "pkg/a.py" "" "") "python_source"
     ["pkg/helpers.py"] [] ∅;
   mkTargetInfo (mkAddress "docs/readme" "" "") "file" [] [] ∅;
   mkTargetInfo (mkAddress "pkg/helpers.py" "" "") "python_test" [] [] ∅].

Definition example_outs : list (TargetWithContent unit) :=
  [mkTargetWithContent
     (mkTargetInfo (mkAddress "n0/n1.py" "" "") "python_source"
        ["n0/n2.py"] [] ∅)
     ("from n0 import n2 as n21" +:+ newline);
   mkTargetWithContent
     (mkTargetInfo (mkAddress "n0/n2.py" "" "") "python_test" [] [] ∅)
     ""].

(** An input record for [from_dict], with one field the dataclass does not
    name. *)
Definition example_dict : gmap string (value unit) :=
  {[ "address" := VStr "//pkg/a.py:a.py";
     "target_type" := VStr "python_source";
     "dependencies" := VNone;
     "sources" := VList ["a.py"] ]}.

(** * Facts about the [str] methods *)

#[local] Arguments String.append !_ _ / : simpl nomatch.

Lemma app_assoc_s (a b c : string) : (a +:+ b) +:+ c = a +:+ (b +:+ c).
Proof. induction a as [|x a IH]; simpl; congruence. Qed.

Lemma app_nil_r_s (a : string) : a +:+ "" = a.
Proof. induction a as [|x a IH]; simpl; congruence. Qed.

Lemma split_not_nil sep s : Str.split sep s ≠ [].
Proof. unfold Str.split. by destruct (Str.fields sep s). Qed.

Lemma join_cons sep x y l :
  Str.join sep (x :: y :: l) = x +:+ sep +:+ Str.join sep (y :: l).
Proof. done. Qed.

Lemma strip_prefix_app pre r : Str.strip_prefix pre (pre +:+ r) = Some r.
Proof.
  induction pre as [|a pre IH]; simpl; [by destruct r |].
  by rewrite decide_True.
Qed.

(** * Facts about the address pattern *)

Lemma span_app t r :
  sep_free t = true → boundary r → Re.span (t +:+ r) = (t, r).
Proof.
  induction t as [|c t IH]; simpl; intros Ht Hr.
  - destruct r as [|c r]; simpl in *; [done | by rewrite Hr].
  - apply andb_true_iff in Ht as [Hc Ht]. by rewrite Hc, IH.
Qed.

Lemma span_spec s t r :
  Re.span s = (t, r) → s = t +:+ r ∧ sep_free t = true ∧ boundary r.
Proof.
  revert t r. induction s as [|c s IH]; simpl; intros t r H.
  - by simplify_eq.
  - destruct (Re.not_sep c) eqn:Hc.
    + destruct (Re.span s) as [t' r'] eqn:Hs. simplify_eq.
      destruct (IH _ _ eq_refl) as (-> & ? & ?). simpl. by rewrite Hc.
    + by simplify_eq.
Qed.

Lemma token_app t r :
  sep_free t = true → boundary r →
  Re.token (t +:+ r) = if decide (t = "") then None else Some (t, r).
Proof.
  intros Ht Hr. unfold Re.token. rewrite span_app by done.
  by destruct t.
Qed.

Lemma token_spec s t r :
  Re.token s = Some (t, r) →
  s = t +:+ r ∧ t ≠ "" ∧ sep_free t = true ∧ boundary r.
Proof.
  unfold Re.token. destruct (Re.span s) as [t' r'] eqn:Hs.
  apply span_spec in Hs as (-> & ? & ?).
  destruct t'; intros; simplify_eq; done.
Qed.

Lemma opt_group_spec c s t r :
  Re.opt_group c s = (Some t, r) → t ≠ "" ∧ sep_free t = true ∧ boundary r.
Proof.
  unfold Re.opt_group. destruct s as [|c' s]; [done |].
  case_decide; [| done].
  destruct (Re.token s) as [[t' r']|] eqn:Ht; [| done].
  intros; simplify_eq. by apply token_spec in Ht as (_ & ? & ? & ?).
Qed.

Lemma sep_free_app a b :
  sep_free (a +:+ b) = sep_free a && sep_free b.
Proof.
  induction a as [|x a IH]; simpl; [done |].
  by rewrite IH, andb_assoc.
Qed.

Lemma rcut_spec sep s h t :
  Str.rcut sep s = Some (h, t) → s = h +:+ String sep t.
Proof.
  revert h. induction s as [|c s IH]; simpl; intros h H; [done |].
  destruct (Str.rcut sep s) as [[h' t']|].
  - simplify_eq. simpl. by rewrite <-(IH h').
  - case_decide; by simplify_eq.
Qed.

Lemma last_path_part_sep_free p :
  sep_free p = true → sep_free (last_path_part p) = true.
Proof.
  unfold last_path_part, Str.rsplit1. intros Hp.
  destruct (Str.rcut "/" p) as [[h t]|] eqn:Hc; simpl; [| done].
  apply rcut_spec in Hc as ->.
  rewrite sep_free_app in Hp. simpl in Hp.
  by apply andb_true_iff in Hp as [_ Hp].
Qed.

Lemma strip_prefix_Some pre s r :
  Str.strip_prefix pre s = Some r → s = pre +:+ r.
Proof.
  revert s. induction pre as [|a pre IH]; intros [|c s] H; simpl in *;
    simplify_eq; try done.
  case_decide; [| done]. subst. by rewrite <-(IH s).
Qed.

Lemma body_app p r :
  sep_free p = true → boundary r →
  Re.body (p +:+ r) =
    if decide (p = "") then None
    else Some (Re.mkGroups p (groups_after r).1 (groups_after r).2).
Proof.
  intros Hp Hr. unfold Re.body, groups_after.
  rewrite token_app by done. case_decide; [done |].
  destruct (Re.opt_group ":" r) as [n r'].
  by destruct (Re.opt_group "#" r').
Qed.

Lemma boundary_not_slash r : boundary r → Str.strip_prefix "/" r = None.
Proof.
  destruct r as [|c r]; simpl; [done |]. intros Hc.
  case_decide; [| done]. by subst.
Qed.

Lemma strip_marker_app p r :
  sep_free p = true → boundary r →
  Str.strip_prefix "//" (p +:+ r) = (λ q, q +:+ r) <$> Str.strip_prefix "//" p.
Proof.
  intros Hp Hr. destruct p as [|c1 [|c2 p]].
  - simpl. destruct r as [|c r]; simpl in *; [done |].
    case_decide; [by subst | done].
  - change (String c1 "" +:+ r) with (String c1 r).
    change (Str.strip_prefix "//" (String c1 r))
      with (if decide ("/"%char = c1) then Str.strip_prefix "/" r else None).
    rewrite (boundary_not_slash r) by done. simpl. by case_decide.
  - simpl. repeat case_decide; done.
Qed.

Lemma unmarked_sep_free p : sep_free p = true → sep_free (unmarked p) = true.
Proof.
  intros Hp. unfold unmarked.
  destruct (Str.strip_prefix "//" p) as [[|c q]|] eqn:Hs; try done.
  apply strip_prefix_Some in Hs. subst p.
  rewrite sep_free_app in Hp. by apply andb_true_iff in Hp as [_ Hp].
Qed.

Lemma capture_app p r :
  sep_free p = true → boundary r →
  Re.capture_pattern_match (p +:+ r) =
    if decide (p = "") then None
    else Some (Re.mkGroups (unmarked p) (groups_after r).1 (groups_after r).2).
Proof.
  intros Hp Hr. unfold Re.capture_pattern_match, unmarked.
  rewrite strip_marker_app by done.
  destruct (Str.strip_prefix "//" p) as [q|] eqn:Hs; simpl.
  - pose proof (strip_prefix_Some _ _ _ Hs) as ->.
    assert (sep_free q = true) as Hq.
    { rewrite sep_free_app in Hp. by apply andb_true_iff in Hp as [_ Hp]. }
    rewrite (body_app q r) by done.
    destruct q as [|c q].
    + rewrite decide_True by done. by rewrite body_app.
    + rewrite decide_False by done. by rewrite decide_False.
  - by rewrite body_app.
Qed.

Lemma from_str_app p r :
  sep_free p = true → boundary r → p ≠ "" →
  from_str (p +:+ r) =
    Ok (mkAddress (unmarked p)
          (normal_name (unmarked p) (groups_after r).1)
          (default "" (groups_after r).2)).
Proof.
  intros Hp Hr Hne. unfold from_str.
  rewrite capture_app by done. by rewrite decide_False.
Qed.

Lemma body_spec s m :
  Re.body s = Some m →
  Re.g_path m ≠ "" ∧ sep_free (Re.g_path m) = true
  ∧ (∀ n, Re.g_name m = Some n → sep_free n = true)
  ∧ (∀ u, Re.g_subtarget m = Some u → sep_free u = true).
Proof.
  unfold Re.body. destruct (Re.token s) as [[p r]|] eqn:Hp; [| done].
  apply token_spec in Hp as (_ & ? & ? & _).
  destruct (Re.opt_group ":" r) as [n r'] eqn:Hn.
  destruct (Re.opt_group "#" r') as [u r''] eqn:Hu.
  intros; simplify_eq. simpl. repeat split; try done.
  - intros n' ->. by apply opt_group_spec in Hn as (_ & ? & _).
  - intros u' ->. by apply opt_group_spec in Hu as (_ & ? & _).
Qed.

Lemma from_str_well_formed t a : from_str t = Ok a → well_formed a.
Proof.
  unfold from_str. intros H.
  destruct (Re.capture_pattern_match t) as [m|] eqn:Hm; [| done].
  assert (∃ s, Re.body s = Some m) as [s Hs].
  { unfold Re.capture_pattern_match in Hm.
    destruct (Str.strip_prefix "//" t) as [t'|]; [| by eauto].
    destruct (Re.body t') eqn:?; simplify_eq; eauto. }
  apply body_spec in Hs as (Hne & Hp & Hn & Hu).
  simplify_eq. unfold well_formed. simpl. repeat split; try done.
  - destruct (Re.g_name m) as [n|]; [| done].
    repeat case_decide; try done. by apply Hn.
  - destruct (Re.g_subtarget m) as [u|]; [| done]. by apply Hu.
  - destruct (Re.g_name m) as [n|]; [| done].
    repeat case_decide; done.
Qed.

Lemma unmarked_root_free p : root_marked p = false → unmarked p = p.
Proof.
  unfold root_marked, unmarked.
  by destruct (Str.strip_prefix "//" p) as [[|c q]|].
Qed.

Lemma token_alone t :
  sep_free t = true → t ≠ "" → Re.token t = Some (t, "").
Proof.
  intros Ht Hne. rewrite <-(app_nil_r_s t) at 1.
  rewrite token_app by done. by rewrite decide_False.
Qed.

(** Parsing gives back a well-formed address that carries no second root
    marker and whose explicit name segment is there when a subtarget is. *)
Lemma from_str_to_str a :
  well_formed a → root_marked (path a) = false →
  (Str.or_else (name a) (last_path_part (path a)) ≠ "" ∨ subtarget a = "") →
  from_str (to_str a) = Ok a.
Proof.
  destruct a as [p n u]. unfold well_formed. simpl.
  intros (Hne & Hp & Hn & Hu & Hnorm) Hroot Hseg.
  unfold to_str. simpl.
  unfold Str.or_else at 1. rewrite decide_False by done.
  set (n' := Str.or_else n (last_path_part p)) in *.
  set (u' := if decide (u = "") then "" else String "#" u).
  assert (sep_free n' = true) as Hn'.
  { unfold n', Str.or_else. case_decide; [| done].
    by apply last_path_part_sep_free. }
  assert (boundary u') as Hbu.
  { unfold u'. by case_decide. }
  rewrite from_str_app; [| done | done | done].
  rewrite unmarked_root_free by done.
  assert (groups_after (String ":" (n' +:+ u'))
          = (if decide (n' = "") then None else Some n',
             if decide (u = "") then None else Some u)) as ->.
  { unfold groups_after.
    unfold Re.opt_group at 1. rewrite decide_True by done.
    rewrite token_app by done.
    destruct (decide (n' = "")) as [Hn0|Hn0].
    - destruct Hseg as [? | ->]; [done |]. by rewrite decide_True.
    - unfold u'. destruct (decide (u = "")) as [->|Hu0]; [done |].
      simpl. by rewrite token_alone. }
  simpl. f_equal. f_equal.
  - unfold normal_name, n', Str.or_else.
    destruct (decide (n = "")) as [->|Hn0].
    + repeat case_decide; done.
    + rewrite decide_False by done. rewrite decide_False by done.
      rewrite decide_False; [done | by apply Hnorm].
  - by case_decide.
Qed.

(** * Address: round trip and name normalisation *)

(** The address the parser makes of a serialisation: a name that repeats
    the last path component is stored as empty. *)
Lemma to_str_normal p n u :
  to_str (mkAddress p (normal_name p (Some n)) u) = to_str (mkAddress p n u).
Proof.
  unfold to_str, normal_name, Str.or_else. simpl.
  repeat case_decide; congruence.
Qed.

(** C4.  Parsing a canonical string and serialising the result gives the
    string back. *)
Theorem address_roundtrip s : canonical s → reserialize s = Ok s.
Proof.
  intros ([p n u] & -> & Hne & Hroot & Hp & Hn & Hu & Hseg).
  simpl in *. unfold reserialize.
  rewrite <-(to_str_normal p n u).
  rewrite from_str_to_str; [done | | done |].
  - unfold well_formed, normal_name. simpl.
    repeat split; try done; repeat case_decide; done.
  - left. unfold name_segment, normal_name, Str.or_else in *. simpl in *.
    repeat case_decide; congruence.
Qed.

Lemma address_roundtrip_witness :
  canonical "src/app:main#gen"
  ∧ reserialize "src/app:main#gen" = Ok "src/app:main#gen".
Proof.
  assert (canonical "src/app:main#gen") as Hc.
  { exists (mkAddress "src/app" "main" "gen").
    repeat split; vm_compute; discriminate. }
  split; [exact Hc | exact (address_roundtrip _ Hc)].
Defined.

(** Where the parser takes a path that ends in a slash, or a second root
    marker, [__str__] prints a string outside the canonical ones, and the
    next parse reads it differently. *)
Example trailing_slash_loses_subtarget :
  from_str "a/#u" = Ok (mkAddress "a/" "" "u")
  ∧ to_str (mkAddress "a/" "" "u") = "a/:#u"
  ∧ reserialize "a/:#u" = Ok "a/:".
Proof. repeat split. Qed.

Example second_root_marker_dropped :
  from_str "////a" = Ok (mkAddress "//a" "" "")
  ∧ to_str (mkAddress "//a" "" "") = "//a:a"
  ∧ reserialize "//a:a" = Ok "a:a".
Proof. repeat split. Qed.

(** C9.  When the name token is the last component of the parsed path, the
    parser returns the address it returns without the token, and stores the
    name as empty; [tail] is the subtarget part, if any. *)
Theorem redundant_name_dropped p tail a :
  sep_free p = true →
  (tail = "" ∨ ∃ t, tail = String "#" t) →
  from_str (p +:+ tail) = Ok a →
  last_path_part (path a) ≠ "" →
  from_str (p +:+ ":" +:+ last_path_part (path a) +:+ tail) = Ok a
  ∧ name a = "".
Proof.
  intros Hp Htail Ha Hlast.
  assert (boundary tail) as Hb by (by destruct Htail as [->|[t ->]]).
  assert (Re.opt_group ":" tail = (None, tail)) as Hcolon
    by (by destruct Htail as [->|[t ->]]).
  destruct (decide (p = "")) as [->|Hne].
  { unfold from_str in Ha. rewrite (capture_app "" tail) in Ha by done.
    by rewrite decide_True in Ha. }
  rewrite from_str_app in Ha by done.
  assert (groups_after tail = (None, (Re.opt_group "#" tail).1)) as Hg
    by (unfold groups_after; by rewrite Hcolon).
  rewrite Hg in Ha. simpl in Ha. simplify_eq. simpl in *.
  split; [| done].
  set (n := last_path_part (unmarked p)) in *.
  assert (sep_free n = true) as Hn
    by (by apply last_path_part_sep_free, unmarked_sep_free).
  change (":" +:+ n +:+ tail) with (String ":" (n +:+ tail)).
  rewrite from_str_app; [| done | done | done].
  assert (groups_after (String ":" (n +:+ tail))
          = (Some n, (Re.opt_group "#" tail).1)) as ->.
  { unfold groups_after, Re.opt_group at 1.
    rewrite decide_True by done. rewrite token_app by done.
    by rewrite decide_False. }
  simpl. f_equal. f_equal. fold n.
  rewrite decide_False by done. by rewrite decide_True.
Qed.

Lemma redundant_name_dropped_witness :
  from_str "a/b:b" = from_str "a/b"
  ∧ from_str "a/b:b" = Ok (mkAddress "a/b" "" "").
Proof.
  pose proof (redundant_name_dropped "a/b" "" (mkAddress "a/b" "" "")
                eq_refl (or_introl eq_refl) eq_refl) as H.
  destruct H as [H _]; [vm_compute; discriminate |].
  split; [| exact H].
  etrans; [exact H | reflexivity].
Defined.

(** * RenameMap and the module path renamer *)

Section RenamingFacts.

Context {G : Type} (gen_name : G → string * G).

Lemma later_trans rm1 rm2 rm3 :
  later gen_name rm1 rm2 → later gen_name rm2 rm3 → later gen_name rm1 rm3.
Proof.
  induction 1 as [|key rm rm' _ IH]; [done |].
  intros H. eapply later_assign, IH, H.
Qed.

Lemma assign_name_spec key rm v rm' :
  assign_name gen_name key rm = (v, rm') →
  _map rm ⊆ _map rm' ∧ _map rm' !! key = Some v.
Proof.
  unfold assign_name. destruct (_map rm !! key) as [w|] eqn:Hk.
  - intros; by simplify_eq.
  - destruct (gen_name (rng rm)) as [w g]. intros; simplify_eq. simpl. split.
    + by apply insert_subseteq.
    + apply lookup_insert_eq.
Qed.

Lemma later_subseteq rm rm' : later gen_name rm rm' → _map rm ⊆ _map rm'.
Proof.
  induction 1 as [|key rm rm' _ IH]; [done |].
  destruct (assign_name gen_name key rm) as [v rm1] eqn:Hk.
  apply assign_name_spec in Hk as [Hsub _]. by etrans.
Qed.

Lemma assign_many_spec keys rm vs rm' :
  assign_many gen_name keys rm = (vs, rm') →
  later gen_name rm rm' ∧ Forall2 (λ k v, _map rm' !! k = Some v) keys vs.
Proof.
  revert rm vs. induction keys as [|k ks IH]; simpl; intros rm vs H.
  - simplify_eq. split; [apply later_refl | constructor].
  - destruct (assign_name gen_name k rm) as [v rm1] eqn:Hk.
    destruct (assign_many gen_name ks rm1) as [ws rm2] eqn:Hks.
    simplify_eq. destruct (IH _ _ Hks) as [Hl Hall].
    split.
    + apply (later_assign _ k). by rewrite Hk.
    + constructor; [| done].
      apply assign_name_spec in Hk as [_ Hv].
      by eapply lookup_weaken, later_subseteq.
Qed.

Lemma assign_many_pseudonym keys rm vs rm' M :
  assign_many gen_name keys rm = (vs, rm') → _map rm' ⊆ M →
  vs = pseudonym M <$> keys.
Proof.
  intros H HM. apply assign_many_spec in H as [_ Hall].
  induction Hall as [|k v ks vs Hk _ IH]; [done |].
  simpl. f_equal; [| done].
  unfold pseudonym. by rewrite (lookup_weaken _ _ _ _ Hk HM).
Qed.

Lemma index_last_components path :
  index_last (components path) = Ok (List.last (components path) "").
Proof.
  unfold index_last, components.
  pose proof (split_not_nil "/" (Str.removesuffix ".py" path)) as Hne.
  rewrite (app_removelast_last "" Hne) at 1. by rewrite last_snoc.
Qed.

(** The renamer returns, leaves a later map, has every key it looked up in
    that map, and its result is the path read off any dictionary that
    extends the map. *)
Lemma rename_python_module_spec path rm :
  ∃ o rm',
    rename_python_module gen_name path rm = Ok (o, rm')
    ∧ later gen_name rm rm'
    ∧ Forall (λ k, is_Some (_map rm' !! k)) (renamed_keys path)
    ∧ ∀ M, _map rm' ⊆ M → o = rename_with M path.
Proof.
  unfold rename_python_module, rename_with, renamed_keys.
  fold (components path). rewrite index_last_components.
  set (parts := components path). set (leaf := List.last parts "").
  assert (∀ keys vs rm',
    assign_many gen_name keys rm = (vs, rm') →
    Forall (λ k, is_Some (_map rm' !! k)) keys) as Hkeys.
  { intros keys vs rm' H. apply assign_many_spec in H as [_ Hall].
    induction Hall; constructor; eauto. }
  destruct (reserved_leaf leaf).
  - destruct (assign_many gen_name (removelast parts) rm) as [rs rm'] eqn:Hrs.
    exists (Str.join "/" (rs ++ [leaf]) +:+ ".py"), rm'.
    split; [done |]. split; [by eapply assign_many_spec |].
    split; [by eapply Hkeys |].
    intros M HM. by rewrite (assign_many_pseudonym _ _ _ _ M Hrs HM).
  - destruct (assign_many gen_name parts rm) as [rs rm'] eqn:Hrs.
    exists (Str.join "/" rs +:+ ".py"), rm'.
    split; [done |]. split; [by eapply assign_many_spec |].
    split; [by eapply Hkeys |].
    intros M HM. by rewrite (assign_many_pseudonym _ _ _ _ M Hrs HM).
Qed.

End RenamingFacts.

Section RenamerTheorems.

Context {G : Type} (gen_name : G → string * G).

Lemma rename_with_snoc M path dirs leaf :
  components path = dirs ++ [leaf] →
  rename_with M path =
    Str.join "/" (if reserved_leaf leaf
                  then (pseudonym M <$> dirs) ++ [leaf]
                  else pseudonym M <$> (dirs ++ [leaf])) +:+ ".py".
Proof.
  intros Hc. unfold rename_with. rewrite Hc.
  by rewrite last_last, removelast_last.
Qed.

Lemma renamed_keys_snoc path dirs leaf :
  components path = dirs ++ [leaf] →
  renamed_keys path = if reserved_leaf leaf then dirs else dirs ++ [leaf].
Proof.
  intros Hc. unfold renamed_keys. rewrite Hc.
  by rewrite last_last, removelast_last.
Qed.

(** C6.  When the last component is [__init__] or [__main__], every
    directory component is replaced by its pseudonym and the last component
    is kept as it is; otherwise every component, the last included, is
    replaced by its pseudonym. *)
Theorem rename_reserved_leaf path rm dirs leaf :
  components path = dirs ++ [leaf] →
  ∃ o rm',
    rename_python_module gen_name path rm = Ok (o, rm')
    ∧ Forall (λ d, is_Some (_map rm' !! d)) dirs
    ∧ (leaf ∈ ["__init__"; "__main__"] →
       o = Str.join "/" ((pseudonym (_map rm') <$> dirs) ++ [leaf]) +:+ ".py")
    ∧ (leaf ∉ ["__init__"; "__main__"] →
       is_Some (_map rm' !! leaf)
       ∧ o = Str.join "/" (pseudonym (_map rm') <$> (dirs ++ [leaf])) +:+ ".py").
Proof.
  intros Hc.
  destruct (rename_python_module_spec gen_name path rm)
    as (o & rm' & Ho & _ & Hkeys & Hwith).
  exists o, rm'. split; [done |].
  rewrite (renamed_keys_snoc _ _ _ Hc) in Hkeys.
  specialize (Hwith (_map rm') (reflexivity _)).
  rewrite (rename_with_snoc _ _ _ _ Hc) in Hwith.
  unfold reserved_leaf in *.
  destruct (bool_decide_reflect (leaf ∈ ["__init__"; "__main__"])) as [Hin|Hout].
  - split; [done |]. split; [done |]. by intros [].
  - apply Forall_app in Hkeys as [Hdirs Hleaf].
    split; [done |]. split; [by intros ? |].
    intros _. split; [by inversion Hleaf | done].
Qed.

(** C8, as amended.  A module path always has at least one component, and
    renaming returns for every path. *)
Theorem rename_python_module_total path rm :
  components path ≠ []
  ∧ ∃ o rm', rename_python_module gen_name path rm = Ok (o, rm').
Proof.
  split; [apply split_not_nil |].
  destruct (rename_python_module_spec gen_name path rm) as (o & rm' & Ho & _).
  eauto.
Qed.

Lemma rename_with_leading M path d r :
  components path = d :: r → r ≠ [] →
  ∃ t, rename_with M path = pseudonym M d +:+ "/" +:+ t.
Proof.
  intros Hc Hr. unfold rename_with. rewrite Hc.
  destruct r as [|x r]; [done |].
  assert (removelast (d :: x :: r) = d :: removelast (x :: r)) as -> by done.
  destruct (reserved_leaf _).
  - rewrite fmap_cons. simpl app.
    destruct (_ ++ [_]) as [|y ys] eqn:Hy; [by destruct (_ <$> _) |].
    rewrite join_cons, !app_assoc_s. eauto.
  - rewrite !fmap_cons, join_cons, !app_assoc_s. eauto.
Qed.

Lemma renamed_keys_leading path d r :
  components path = d :: r → r ≠ [] → d ∈ renamed_keys path.
Proof.
  intros Hc Hr. unfold renamed_keys. rewrite Hc.
  destruct r as [|x r]; [done |].
  assert (removelast (d :: x :: r) = d :: removelast (x :: r)) as -> by done.
  destruct (reserved_leaf _); apply list_elem_of_here.
Qed.

(** C1.  Two module paths that start with the same directory component [d],
    renamed through one [RenameMap] (the second at any later time), come
    out starting with the same renamed component: the pseudonym the map
    holds for [d]. *)
Theorem rename_shares_leading_component p1 p2 d r1 r2 rm0 o1 rm1 rm2 o2 rm3 :
  components p1 = d :: r1 → r1 ≠ [] →
  components p2 = d :: r2 → r2 ≠ [] →
  rename_python_module gen_name p1 rm0 = Ok (o1, rm1) →
  later gen_name rm1 rm2 →
  rename_python_module gen_name p2 rm2 = Ok (o2, rm3) →
  ∃ c t1 t2,
    _map rm3 !! d = Some c
    ∧ o1 = c +:+ "/" +:+ t1
    ∧ o2 = c +:+ "/" +:+ t2.
Proof.
  intros Hc1 Hr1 Hc2 Hr2 H1 Hl H2.
  destruct (rename_python_module_spec gen_name p1 rm0)
    as (o1' & rm1' & Ho1 & _ & _ & Hw1).
  destruct (rename_python_module_spec gen_name p2 rm2)
    as (o2' & rm3' & Ho2 & Hl3 & Hk2 & Hw2).
  rewrite H1 in Ho1. rewrite H2 in Ho2. simplify_eq.
  assert (_map rm1' ⊆ _map rm3') as Hsub.
  { etrans; by eapply later_subseteq. }
  rewrite Forall_forall in Hk2.
  destruct (Hk2 d (renamed_keys_leading _ _ _ Hc2 Hr2)) as [c Hc].
  destruct (rename_with_leading (_map rm3') p1 d r1 Hc1 Hr1) as [t1 Ht1].
  destruct (rename_with_leading (_map rm3') p2 d r2 Hc2 Hr2) as [t2 Ht2].
  exists c, t1, t2. split; [done |].
  rewrite (Hw1 _ Hsub), (Hw2 _ (reflexivity _)), Ht1, Ht2.
  unfold pseudonym. by rewrite Hc.
Qed.

End RenamerTheorems.


Lemma rename_reserved_leaf_witness :
  ∃ o rm',
    rename_python_module counting_names "pkg/sub/__init__.py" (RenameMap_new 0)
      = Ok (o, rm')
    ∧ o = "n0/n1/__init__.py".
Proof.
  destruct (rename_reserved_leaf counting_names "pkg/sub/__init__.py"
              (RenameMap_new 0) ["pkg"; "sub"] "__init__" eq_refl)
    as (o & rm' & Ho & _ & Hres & _).
  exists o, rm'. split; [exact Ho |].
  vm_compute in Ho. injection Ho as <- _. reflexivity.
Defined.

(** C8, as stated, fails: the empty path has one (empty) component and is
    renamed like any other. *)
Lemma rename_empty_path :
  Str.removesuffix ".py" "" = ""
  ∧ components "" = [""]
  ∧ rename_python_module counting_names "" (RenameMap_new 0)
    = Ok ("n0.py", mkRenameMap 1 {[ "" := "n0" ]}).
Proof. repeat split. Qed.

Lemma rename_shares_leading_component_witness :
  ∃ c t1 t2, "n0/n1.py" = c +:+ "/" +:+ t1 ∧ "n0/n2.py" = c +:+ "/" +:+ t2.
Proof.
  destruct (rename_python_module counting_names "pkg/a.py" (RenameMap_new 0))
    as [[o1 rm1]|] eqn:H1; [| vm_compute in H1; discriminate].
  destruct (rename_python_module counting_names "pkg/helpers.py" rm1)
    as [[o2 rm3]|] eqn:H2;
    [| vm_compute in H1; injection H1 as <- <-; vm_compute in H2; discriminate].
  destruct (rename_shares_leading_component counting_names
              "pkg/a.py" "pkg/helpers.py" "pkg" ["a"] ["helpers"]
              (RenameMap_new 0) o1 rm1 rm1 o2 rm3)
    as (c & t1 & t2 & _ & E1 & E2);
    [reflexivity | discriminate | reflexivity | discriminate
    | exact H1 | apply later_refl | exact H2 |].
  vm_compute in H1. injection H1 as <- <-.
  vm_compute in H2. injection H2 as <- <-.
  exists c, t1, t2. split; [exact E1 | exact E2].
Defined.

(** * Import synthesis *)

Lemma count_of_up seen x y :
  count_of (count_up seen x) y
  = if decide (x = y) then S (count_of seen y) else count_of seen y.
Proof.
  unfold count_of, count_up. case_decide.
  - subst. by rewrite lookup_insert_eq.
  - by rewrite lookup_insert_ne.
Qed.

Lemma render_imports_from_cons seen dep deps :
  render_imports_from seen (dep :: deps) =
    let import_ := (edge_of dep).2 in
    if decide (import_ = "__init__") then render_imports_from seen deps
    else
      match render_imports_from (count_up seen import_) deps with
      | Ok lines =>
          Ok (import_line (Str.join "." (edge_of dep).1) import_
                (import_ +:+ pretty (count_of (count_up seen import_) import_))
              :: lines)
      | Raise e => Raise e
      end.
Proof.
  cbn [render_imports_from]. unfold edge_of, components.
  pose proof (split_not_nil "/" (Str.removesuffix ".py" dep)) as Hne.
  by destruct (Str.split "/" (Str.removesuffix ".py" dep)).
Qed.

Lemma imported_cons dep deps :
  imported (dep :: deps) =
    if decide ((edge_of dep).2 = "__init__") then imported deps
    else edge_of dep :: imported deps.
Proof.
  unfold imported. rewrite fmap_cons, filter_cons.
  repeat case_decide; done.
Qed.

Lemma occurrences_cons x y l :
  occurrences x (y :: l) = (if decide (x = y) then 1 else 0) + occurrences x l.
Proof. unfold occurrences. rewrite filter_cons. by case_decide. Qed.

Lemma occurrences_take_lt (l : list string) i j x :
  l !! i = Some x → i < j →
  occurrences x (take i l) < occurrences x (take j l).
Proof.
  revert i j. induction l as [|y l IH]; intros i j Hi Hij; [done |].
  destruct j as [|j]; [lia |]. destruct i as [|i]; simpl in *.
  - simplify_eq. rewrite occurrences_cons, decide_True by done.
    unfold occurrences at 1. simpl. lia.
  - rewrite !occurrences_cons.
    pose proof (IH i j Hi ltac:(lia)). lia.
Qed.

Lemma occurrences_absent (l : list string) x : x ∉ l → occurrences x l = 0.
Proof.
  induction l as [|y l IH]; [done |].
  rewrite not_elem_of_cons, occurrences_cons. intros [Hxy Hl].
  by rewrite decide_False, IH.
Qed.

(** The generator never raises, and numbers every leaf from the count it
    starts with. *)
Lemma render_imports_from_spec deps seen :
  ∃ lines,
    render_imports_from seen deps = Ok lines
    ∧ length lines = length (imported deps)
    ∧ ∀ i froms leaf,
        imported deps !! i = Some (froms, leaf) →
        lines !! i =
          Some (import_line (Str.join "." froms) leaf
                  (leaf +:+ pretty (count_of seen leaf
                     + S (occurrences leaf (take i ((imported deps).*2)))))).
Proof.
  revert seen. induction deps as [|dep deps IH]; intros seen.
  - exists []. by repeat split.
  - rewrite render_imports_from_cons, imported_cons. cbv zeta.
    destruct (edge_of dep) as [fs l] eqn:He. simpl.
    case_decide as Hinit; [apply IH |].
    destruct (IH (count_up seen l)) as (lines & -> & Hlen & Hat).
    eexists. split; [done |]. split; [simpl; by rewrite Hlen |].
    intros [|i] froms leaf Hi; simpl in *.
    + simplify_eq. unfold occurrences. simpl.
      rewrite count_of_up, decide_True by done.
      by replace (count_of seen leaf + 1) with (S (count_of seen leaf)) by lia.
    + rewrite (Hat _ _ _ Hi), count_of_up, occurrences_cons.
      do 3 f_equal.
      change (list_fmap _ _ snd (imported deps)) with ((imported deps).*2).
      case_decide; case_decide; simplify_eq; f_equal; lia.
Qed.

Lemma render_imports_total deps : ∃ lines, render_imports deps = Ok lines.
Proof.
  destruct (render_imports_from_spec deps ∅) as (lines & H & _). eauto.
Qed.

(** C5.  [render_imports] returns one line per imported edge; the line of
    the [i]-th such edge carries the alias made of its leaf name and one
    more than the number of earlier edges with that leaf, so the first
    occurrence of a leaf gets the suffix [1], and two edges with the same
    leaf get different aliases. *)
Theorem render_imports_aliases deps :
  ∃ lines,
    render_imports deps = Ok lines
    ∧ length lines = length (imported deps)
    ∧ (∀ i froms leaf,
         imported deps !! i = Some (froms, leaf) →
         lines !! i =
           Some (import_line (Str.join "." froms) leaf (alias_at deps i leaf)))
    ∧ (∀ i froms leaf,
         imported deps !! i = Some (froms, leaf) →
         leaf ∉ take i ((imported deps).*2) →
         alias_at deps i leaf = leaf +:+ "1")
    ∧ (∀ i j froms froms' leaf,
         imported deps !! i = Some (froms, leaf) →
         imported deps !! j = Some (froms', leaf) →
         i ≠ j →
         alias_at deps i leaf ≠ alias_at deps j leaf).
Proof.
  destruct (render_imports_from_spec deps ∅) as (lines & Hl & Hlen & Hat).
  exists lines. split; [done |]. split; [done |]. split; [| split].
  - intros i froms leaf Hi. by rewrite (Hat _ _ _ Hi).
  - intros i froms leaf _ Hfirst. unfold alias_at.
    by rewrite occurrences_absent.
  - intros i j froms froms' leaf Hi Hj Hij Heq. unfold alias_at in Heq.
    apply (inj (String.app leaf)) in Heq. apply (inj pretty) in Heq.
    assert ((imported deps).*2 !! i = Some leaf) as Hi'
      by (by rewrite list_lookup_fmap, Hi).
    assert ((imported deps).*2 !! j = Some leaf) as Hj'
      by (by rewrite list_lookup_fmap, Hj).
    destruct (decide (i < j)).
    + pose proof (occurrences_take_lt _ i j leaf Hi' ltac:(done)). lia.
    + pose proof (occurrences_take_lt _ j i leaf Hj' ltac:(lia)). lia.
Qed.

Lemma render_imports_aliases_witness :
  render_imports ["n0/n1.py"; "n2/n1.py"; "n3/__init__.py"; "n4.py"]
  = Ok ["from n0 import n1 as n11"; "from n2 import n1 as n12";
        "import n4 as n41"]
  ∧ alias_at ["n0/n1.py"; "n2/n1.py"; "n3/__init__.py"; "n4.py"] 0 "n1"
    ≠ alias_at ["n0/n1.py"; "n2/n1.py"; "n3/__init__.py"; "n4.py"] 1 "n1".
Proof.
  destruct (render_imports_aliases
              ["n0/n1.py"; "n2/n1.py"; "n3/__init__.py"; "n4.py"])
    as (lines & Hl & _ & _ & _ & Hne).
  split; [reflexivity |].
  apply (Hne 0 1 ["n0"] ["n2"] "n1"); [reflexivity | reflexivity | lia].
Defined.


(** * The handler and the pipeline *)

Section PipelineFacts.

Context {G : Type} (gen_name : G → string * G).
Context (set_iter : gset string → list string).
Context (set_iter_perm : ∀ X, set_iter X ≡ₚ elements X).
Context {Any : Type}.

Lemma rename_each_spec xs rm :
  ∃ ys rm',
    rename_each gen_name xs rm = Ok (ys, rm')
    ∧ later gen_name rm rm'
    ∧ ∀ M, _map rm' ⊆ M → ys = rename_with M <$> xs.
Proof.
  revert rm. induction xs as [|x xs IH]; intros rm; simpl.
  - exists [], rm. split; [done |]. split; [apply later_refl | done].
  - destruct (rename_python_module_spec gen_name x rm)
      as (y & rm1 & -> & Hl1 & _ & Hy).
    destruct (IH rm1) as (ys & rm2 & -> & Hl2 & Hys).
    exists (y :: ys), rm2. split; [done |].
    split; [by eapply later_trans |].
    intros M HM. rewrite (Hys M HM). f_equal.
    apply Hy. etrans; [by eapply later_subseteq | done].
Qed.

Lemma handle_python_module_spec (info : TargetInfo Any) tt rm :
  ∃ out rm',
    handle_python_module gen_name set_iter info tt rm = Ok (out, rm')
    ∧ later gen_name rm rm'
    ∧ ∀ M, _map rm' ⊆ M → anonymised set_iter M info out.
Proof.
  unfold handle_python_module.
  destruct (rename_python_module_spec gen_name (path (address info)) rm)
    as (new_path & rm1 & -> & Hl1 & _ & Hpath).
  fold (kept_edges set_iter info).
  destruct (rename_each_spec (kept_edges set_iter info) rm1)
    as (renamed & rm2 & -> & Hl2 & Hdeps).
  destruct (render_imports_total renamed) as [lines Hlines]. rewrite Hlines.
  eexists _, rm2. split; [done |]. split; [by eapply later_trans |].
  intros M HM. unfold anonymised. simpl.
  rewrite <-(Hdeps M HM), <-(Hpath M).
  - repeat split. by exists lines.
  - etrans; [by eapply later_subseteq | done].
Qed.

Lemma type_to_handler_lookup tt :
  (type_to_handler gen_name set_iter (Any:=Any)) !! tt =
    if bool_decide (tt ∈ ["python_source"; "python_test"])
    then Some (handle_python_module gen_name set_iter) else None.
Proof.
  unfold type_to_handler.
  destruct (bool_decide_reflect (tt ∈ ["python_source"; "python_test"]))
    as [Hin|Hout].
  - apply elem_of_cons in Hin as [->|Hin]; [by rewrite lookup_insert_eq |].
    apply list_elem_of_singleton in Hin as ->.
    rewrite lookup_insert_ne by done. by rewrite lookup_singleton_eq.
  - rewrite !not_elem_of_cons in Hout. destruct Hout as (? & ? & _).
    rewrite lookup_insert_ne by done. by rewrite lookup_singleton_ne.
Qed.

Lemma eligible_dom (ti : TargetInfo Any) :
  bool_decide
    (target_type ti ∈ dom (type_to_handler gen_name set_iter (Any:=Any)))
  = eligible ti.
Proof.
  unfold eligible. apply bool_decide_ext.
  rewrite elem_of_dom, type_to_handler_lookup.
  destruct (bool_decide_reflect
              (target_type ti ∈ ["python_source"; "python_test"])).
  - split; [done | by eauto].
  - split; [by intros [? ?] | done].
Qed.

Lemma rename_targets_from_spec (peek_data : list (TargetInfo Any)) rm :
  ∃ outs rm',
    rename_targets_from gen_name set_iter rm peek_data = Ok (outs, rm')
    ∧ later gen_name rm rm'
    ∧ ∀ M, _map rm' ⊆ M →
        Forall2 (anonymised set_iter M) (filter eligible peek_data) outs.
Proof.
  revert rm. induction peek_data as [|ti rest IH]; intros rm.
  - exists [], rm. split; [done |]. split; [apply later_refl |].
    intros M _. constructor.
  - cbn [rename_targets_from]. rewrite eligible_dom, filter_cons.
    rewrite type_to_handler_lookup. case_decide as He.
    + apply Is_true_true in He. rewrite He. unfold eligible in He. rewrite He.
      destruct (handle_python_module_spec ti (target_type ti) rm)
        as (out & rm1 & -> & Hl1 & Hout).
      destruct (IH rm1) as (outs & rm2 & -> & Hl2 & Houts).
      exists (out :: outs), rm2. split; [done |].
      split; [by eapply later_trans |].
      intros M HM. constructor; [| by apply Houts].
      apply Hout. etrans; [by eapply later_subseteq | done].
    + apply Is_true_false in He. rewrite He. apply IH.
Qed.


(** C10.  The output address is the input address with a new path: name
    and subtarget are carried over as they are. *)
Theorem handler_address_frame (info : TargetInfo Any) tt rm :
  ∃ out rm',
    handle_python_module gen_name set_iter info tt rm = Ok (out, rm')
    ∧ name (address out) = name (address info)
    ∧ subtarget (address out) = subtarget (address info)
    ∧ path (address out) = rename_with (_map rm') (path (address info)).
Proof.
  destruct (handle_python_module_spec info tt rm) as (out & rm' & Ho & _ & Han).
  destruct (Han (_map rm') (reflexivity _)) as (Haddr & _).
  exists out, rm'. by rewrite Haddr.
Qed.

(** C7.  The pipeline returns; its result has one record per input record
    of type [python_source] or [python_test], in input order, every one
    anonymised under the one dictionary the run ends with (a dictionary
    that was empty when the run started); other records leave no trace. *)
Theorem pipeline_one_per_eligible g (peek_data : list (TargetInfo Any)) :
  ∃ outs rm,
    rename_targets_from gen_name set_iter (RenameMap_new g) peek_data
      = Ok (outs, rm)
    ∧ rename_python_targets gen_name set_iter g peek_data = Ok outs
    ∧ Forall2 (anonymised set_iter (_map rm)) (filter eligible peek_data) outs.
Proof.
  destruct (rename_targets_from_spec peek_data (RenameMap_new g))
    as (outs & rm & Ho & _ & Hall).
  exists outs, rm. split; [done |].
  split; [unfold rename_python_targets; by rewrite Ho | by apply Hall].
Qed.

End PipelineFacts.


(** The handler on a target where [a] is written by the author and [b]
    and [c] are inferred. *)
Example handler_example :
  fst <$> (match handle_python_module counting_names elements
             example_target "python_source" (RenameMap_new 0)
           with Ok r => Some r | Raise _ => None end)
  = Some (mkTargetWithContent
            (mkTargetInfo (mkAddress "n0/n1.py" "lib" "gen") "python_source"
               ["n2.py"; "n3.py"] [] ∅)
            ("import n2 as n21" +:+ newline
             +:+ "import n3 as n31" +:+ newline)).
Proof. reflexivity. Qed.

(** The pipeline on two module records and one record of another type. *)
Example pipeline_example :
  rename_python_targets counting_names elements 0
    [mkTargetInfo (mkAddress "pkg/a.py" "" "") "python_source"
       ["pkg/helpers.py"] [] (∅ : gmap string unit);
     mkTargetInfo (mkAddress "docs/readme" "" "") "file" [] [] ∅;
     mkTargetInfo (mkAddress "pkg/helpers.py" "" "") "python_test" [] [] ∅]
  = Ok [mkTargetWithContent
          (mkTargetInfo (mkAddress "n0/n1.py" "" "") "python_source"
             ["n0/n2.py"] [] ∅)
          ("from n0 import n2 as n21" +:+ newline);
        mkTargetWithContent
          (mkTargetInfo (mkAddress "n0/n2.py" "" "") "python_test" [] [] ∅)
          ""].
Proof. reflexivity. Qed.

(** C3: the empty edge.  Its decomposition is the one empty component, so
    the [ValueError] branch is not taken: [render_imports] emits a line with
    an empty module name, and a run over a record with an empty dependency
    returns (the edge is renamed like a one-component path first). *)
Theorem render_imports_empty_edge :
  components "" = [""]
  ∧ render_imports [""] = Ok ["import  as 1"]
  ∧ rename_python_targets counting_names elements 0
      [mkTargetInfo (mkAddress "pkg/a.py" "" "") "python_source"
         [""] [] (∅ : gmap string unit)]
    = Ok [mkTargetWithContent
            (mkTargetInfo (mkAddress "n0/n1.py" "" "") "python_source"
               ["n2.py"] [] ∅)
            ("import n2 as n21" +:+ newline)].
Proof. repeat split. Qed.

(** * Further properties of the code *)

Set Warnings "-clear-no-such-hyp".

(** ** The [str] methods *)

Lemma join_split sep s : Str.join (String sep "") (Str.split sep s) = s.
Proof.
  unfold Str.split. induction s as [|c s IH]; [done |].
  simpl. destruct (Str.fields sep s) as [h t]. case_decide.
  - rewrite join_cons, IH. simpl. congruence.
  - destruct t as [|y t]; [simpl in *; congruence |].
    rewrite join_cons. rewrite join_cons in IH. by rewrite <-IH.
Qed.

Lemma fields_free sep x :
  char_free sep x = true → Str.fields sep x = (x, []).
Proof.
  induction x as [|c x IH]; simpl; [done |].
  intros [Hc Hx]%andb_true_iff. rewrite (IH Hx).
  apply negb_true_iff, bool_decide_eq_false in Hc. by rewrite decide_False.
Qed.

Lemma fields_free_app sep x r :
  char_free sep x = true →
  Str.fields sep (x +:+ String sep r) = (x, Str.split sep r).
Proof.
  unfold Str.split. induction x as [|c x IH]; simpl.
  - intros _. destruct (Str.fields sep r). by rewrite decide_True.
  - intros [Hc Hx]%andb_true_iff. rewrite (IH Hx).
    destruct (Str.fields sep r).
    apply negb_true_iff, bool_decide_eq_false in Hc. by rewrite decide_False.
Qed.

Lemma split_join sep l :
  l ≠ [] → Forall (λ x, char_free sep x = true) l →
  Str.split sep (Str.join (String sep "") l) = l.
Proof.
  intros Hne Hall. induction Hall as [|x l Hx Hl IH]; [done |].
  destruct l as [|y l].
  - unfold Str.split. simpl. by rewrite fields_free.
  - rewrite join_cons. unfold Str.split at 1.
    change (String sep "" +:+ ?r) with (String sep r).
    rewrite fields_free_app by done. by rewrite IH.
Qed.

Lemma length_app_s a b :
  String.length (a +:+ b) = String.length a + String.length b.
Proof. induction a as [|c a IH]; simpl; [done | by rewrite IH]. Qed.

Lemma removesuffix_app suf p : Str.removesuffix suf (p +:+ suf) = p.
Proof.
  induction p as [|c p IH].
  - change ("" +:+ suf) with suf. destruct suf; [done |].
    cbn [Str.removesuffix]. by rewrite decide_True.
  - change (String c p +:+ suf) with (String c (p +:+ suf)).
    cbn [Str.removesuffix]. rewrite decide_False, IH; [done |].
    intros Heq. apply (f_equal String.length) in Heq.
    simpl in Heq. rewrite length_app_s in Heq. lia.
Qed.

Lemma rcut_fields sep s :
  match Str.rcut sep s with
  | None => Str.fields sep s = (s, [])
  | Some (_, t) =>
      (Str.fields sep s).2 ≠ [] ∧ last (Str.fields sep s).2 = Some t
  end.
Proof.
  induction s as [|c s IH]; simpl; [done |].
  destruct (Str.fields sep s) as [h t] eqn:Hf.
  destruct (Str.rcut sep s) as [[h' t']|]; simpl in *.
  - destruct IH as [Hne Hlast].
    case_decide; simpl; [| done]. split; [done |].
    by destruct t.
  - simplify_eq. case_decide; simpl; [by subst | done].
Qed.

(** X1.  [last_path_part] is the last field of the split on [/], and holds no
    slash. *)
Theorem last_path_part_last_component s :
  last (Str.split "/" s) = Some (last_path_part s)
  ∧ char_free "/" (last_path_part s) = true.
Proof.
  assert (last (Str.split "/" s) = Some (last_path_part s)) as Hlast.
  { unfold last_path_part, Str.rsplit1, Str.split.
    pose proof (rcut_fields "/" s) as H.
    destruct (Str.rcut "/" s) as [[h t]|].
    - destruct (Str.fields "/" s) as [h0 t0]. simpl in *.
      destruct H as [Hne Ht]. destruct t0 as [|x t0]; [done |].
      rewrite last_cons, Ht. done.
    - by rewrite H. }
  split; [done |].
  assert (∀ sep x, Forall (λ y, char_free sep y = true) (Str.split sep x))
    as Hfree.
  { intros sep x. unfold Str.split. induction x as [|c x IH]; simpl.
    - by repeat constructor.
    - destruct (Str.fields sep x) as [h t]. inversion IH; subst.
      case_decide.
      + by repeat constructor.
      + constructor; [| done]. simpl.
        rewrite bool_decide_false by done. by simpl. }
  specialize (Hfree "/"%char s). rewrite Forall_forall in Hfree.
  apply Hfree, list_elem_of_In. apply last_Some in Hlast as [l' ->].
  apply in_app_iff. right. by left.
Qed.

(** ** Address *)

Lemma token_None s : Re.token s = None ↔ boundary s.
Proof.
  unfold Re.token. destruct s as [|c s]; simpl; [done |].
  destruct (Re.not_sep c) eqn:Hc.
  - destruct (Re.span s). split; [done | intros; congruence].
  - done.
Qed.

Lemma body_None s : Re.body s = None ↔ boundary s.
Proof.
  rewrite <-token_None. unfold Re.body.
  destruct (Re.token s) as [[p r]|]; [| done].
  destruct (Re.opt_group ":" r) as [n r'].
  by destruct (Re.opt_group "#" r').
Qed.

(** X2.  [from_str] raises exactly on the empty string and on a string that
    starts with [:] or [#] (and then a [ValueError]); every other string
    parses. *)
Theorem from_str_raises_iff s :
  (boundary s → ∃ msg, from_str s = Raise (ValueError msg))
  ∧ (¬ boundary s → ∃ a, from_str s = Ok a).
Proof.
  unfold from_str, Re.capture_pattern_match. split.
  - intros Hb. assert (Str.strip_prefix "//" s = None) as ->.
    { destruct s as [|c s]; [done |]. simpl in *.
      case_decide; [by subst | done]. }
    apply body_None in Hb. rewrite Hb. by eauto.
  - intros Hb. assert (∃ m, Re.body s = Some m) as [m Hm].
    { destruct (Re.body s) eqn:E; [by eauto |]. by apply body_None in E. }
    destruct (Str.strip_prefix "//" s) as [s'|].
    + destruct (Re.body s'); [by eauto |]. rewrite Hm. by eauto.
    + rewrite Hm. by eauto.
Qed.

Lemma from_str_raises_iff_witness :
  (∃ msg, from_str ":lib" = Raise (ValueError msg))
  ∧ ∃ a, from_str "//:lib" = Ok a.
Proof.
  split.
  - apply (proj1 (from_str_raises_iff ":lib")). reflexivity.
  - apply (proj2 (from_str_raises_iff "//:lib")). vm_compute. discriminate.
Defined.

Lemma body_input s m :
  Re.body s = Some m → ∃ rest, s = Re.g_path m +:+ rest.
Proof.
  unfold Re.body. destruct (Re.token s) as [[p r]|] eqn:Hp; [| done].
  apply token_spec in Hp as (-> & _).
  destruct (Re.opt_group ":" r) as [n r'].
  destruct (Re.opt_group "#" r') as [u r''].
  intros; simplify_eq. simpl. eauto.
Qed.

(** X3.  Every address [from_str] returns has a non-empty path taken from the
    start of the input (after the root marker, if that was dropped), no [:]
    and no [#] in any field, and a name that is empty or differs from the
    last path component. *)
Theorem from_str_invariants t a :
  from_str t = Ok a →
  (∃ rest, t = path a +:+ rest ∨ t = "//" +:+ path a +:+ rest)
  ∧ path a ≠ ""
  ∧ sep_free (path a) = true ∧ sep_free (name a) = true
  ∧ sep_free (subtarget a) = true
  ∧ (name a = "" ∨ name a ≠ last_path_part (path a)).
Proof.
  intros Ha. pose proof (from_str_well_formed t a Ha) as (? & ? & ? & ? & Hn).
  split; [| repeat split; try done].
  - unfold from_str in Ha.
    destruct (Re.capture_pattern_match t) as [m|] eqn:Hm; [| done].
    simplify_eq. simpl. unfold Re.capture_pattern_match in Hm.
    destruct (Str.strip_prefix "//" t) as [t'|] eqn:Ht.
    + apply strip_prefix_Some in Ht as ->.
      destruct (Re.body t') eqn:Hb.
      * simplify_eq. apply body_input in Hb as [rest ->]. eauto.
      * apply body_input in Hm as [rest ->]. eauto.
    + apply body_input in Hm as [rest ->]. eauto.
  - destruct (decide (name a = "")); [by left | right; auto].
Qed.

Lemma from_str_invariants_witness :
  path (mkAddress "src/app" "main" "gen") ≠ ""
  ∧ sep_free "src/app" = true.
Proof.
  destruct (from_str_invariants "//src/app:main#gen"
              (mkAddress "src/app" "main" "gen") eq_refl)
    as (_ & Hne & Hp & _).
  split; [exact Hne | exact Hp].
Defined.

(** X4.  For an address [from_str] returned, [from_str] undoes [__str__],
    provided the path does not itself start with a root marker and text, and
    the name segment is there when a subtarget is. *)
Theorem from_str_inverts_to_str t a :
  from_str t = Ok a →
  root_marked (path a) = false →
  (name_segment a ≠ "" ∨ subtarget a = "") →
  from_str (to_str a) = Ok a.
Proof.
  intros Ha Hroot Hseg. apply from_str_to_str; [| done | done].
  by eapply from_str_well_formed.
Qed.

Lemma from_str_inverts_to_str_witness :
  from_str (to_str (mkAddress "pkg/" "" "")) = Ok (mkAddress "pkg/" "" "").
Proof.
  apply (from_str_inverts_to_str "pkg/" (mkAddress "pkg/" "" ""));
    [reflexivity | reflexivity | right; reflexivity].
Defined.

(** X5.  The root marker is optional: put before a string that parses and does
    not start with [//] itself, it changes nothing. *)
Theorem from_str_root_marker s a :
  from_str s = Ok a →
  Str.strip_prefix "//" s = None →
  from_str ("//" +:+ s) = Ok a.
Proof.
  unfold from_str, Re.capture_pattern_match. intros Ha Hs.
  rewrite strip_prefix_app. rewrite Hs in Ha.
  destruct (Re.body s) as [m|]; [done | done].
Qed.

Lemma from_str_root_marker_witness :
  from_str "//src/app:main" = Ok (mkAddress "src/app" "main" "").
Proof.
  apply (from_str_root_marker "src/app:main"); reflexivity.
Defined.

(** X6.  [re.match] is not anchored at the end: whatever follows a complete
    [path:name#subtarget], starting with [:] or [#], is ignored. *)
Theorem from_str_ignores_tail p n u rest :
  sep_free p = true → p ≠ "" →
  sep_free n = true → n ≠ "" →
  sep_free u = true → u ≠ "" →
  boundary rest →
  from_str (p +:+ ":" +:+ n +:+ "#" +:+ u +:+ rest)
  = from_str (p +:+ ":" +:+ n +:+ "#" +:+ u).
Proof.
  intros Hp Hp0 Hn Hn0 Hu Hu0 Hrest.
  assert (∀ r, boundary r →
    groups_after (String ":" (n +:+ String "#" (u +:+ r))) = (Some n, Some u))
    as Hg.
  { intros r Hr. unfold groups_after, Re.opt_group at 1.
    rewrite decide_True by done. rewrite token_app by done.
    rewrite decide_False by done. unfold Re.opt_group.
    rewrite decide_True by done. rewrite token_app by done.
    by rewrite decide_False. }
  change (p +:+ ":" +:+ n +:+ "#" +:+ u +:+ rest)
    with (p +:+ String ":" (n +:+ String "#" (u +:+ rest))).
  rewrite from_str_app, Hg by done.
  rewrite <-(app_nil_r_s u) at 3.
  change (p +:+ ":" +:+ n +:+ "#" +:+ u +:+ "")
    with (p +:+ String ":" (n +:+ String "#" (u +:+ ""))).
  by rewrite from_str_app, Hg.
Qed.

Lemma from_str_ignores_tail_witness :
  from_str "a/b:c#d:junk#more" = from_str "a/b:c#d".
Proof.
  apply (from_str_ignores_tail "a/b" "c" "d" ":junk#more");
    first [reflexivity | discriminate].
Defined.

(** ** RenameMap *)

Section RenameMapProperties.

Context {G : Type} (gen_name : G → string * G).

Lemma assign_name_known key rm v :
  _map rm !! key = Some v → assign_name gen_name key rm = (v, rm).
Proof. unfold assign_name. by intros ->. Qed.

Lemma assign_many_known keys rm vs :
  Forall2 (λ k v, _map rm !! k = Some v) keys vs →
  assign_many gen_name keys rm = (vs, rm).
Proof.
  induction 1 as [|k v ks vs Hk _ IH]; simpl; [done |].
  by rewrite (assign_name_known _ _ _ Hk), IH.
Qed.

(** X7.  Memoisation: once a key has been assigned, every later call for it
    returns the same pseudonym, draws no name and leaves the map as it is. *)
Theorem assign_name_memo key rm v rm' rm'' :
  assign_name gen_name key rm = (v, rm') →
  later gen_name rm' rm'' →
  assign_name gen_name key rm'' = (v, rm'').
Proof.
  intros [_ Hv]%assign_name_spec Hl. apply assign_name_known.
  by eapply lookup_weaken, later_subseteq.
Qed.

Lemma assign_name_dom key rm v rm' :
  assign_name gen_name key rm = (v, rm') →
  dom (_map rm') = dom (_map rm) ∪ {[key]}.
Proof.
  unfold assign_name. destruct (_map rm !! key) as [w|] eqn:Hk.
  - intros; simplify_eq. apply (elem_of_dom_2 (D:=gset string)) in Hk.
    set_solver.
  - destruct (gen_name (rng rm)) as [w g]. intros; simplify_eq. simpl.
    rewrite dom_insert_L. set_solver.
Qed.

Lemma assign_many_dom keys rm vs rm' :
  assign_many gen_name keys rm = (vs, rm') →
  _map rm ⊆ _map rm'
  ∧ dom (_map rm') = dom (_map rm) ∪ list_to_set keys.
Proof.
  intros H. split.
  { apply assign_many_spec in H as [Hl _]. by apply later_subseteq in Hl. }
  revert rm vs H. induction keys as [|k ks IH]; simpl; intros rm vs H.
  - simplify_eq. set_solver.
  - destruct (assign_name gen_name k rm) as [v rm1] eqn:Hk.
    destruct (assign_many gen_name ks rm1) as [ws rm2] eqn:Hks.
    simplify_eq. rewrite (IH _ _ Hks), (assign_name_dom _ _ _ _ Hk).
    set_solver.
Qed.

(** X8.  [assign_many] returns one pseudonym per key, the same one for the same
    key; the map it leaves keeps every entry it had and has exactly the
    keys of the batch more. *)
Theorem assign_many_consistent keys rm vs rm' :
  assign_many gen_name keys rm = (vs, rm') →
  length vs = length keys
  ∧ (∀ i j k, keys !! i = Some k → keys !! j = Some k → vs !! i = vs !! j)
  ∧ _map rm ⊆ _map rm'
  ∧ dom (_map rm') = dom (_map rm) ∪ list_to_set keys.
Proof.
  intros H. pose proof (assign_many_spec _ _ _ _ _ H) as [_ Hall].
  split; [symmetry; by eapply Forall2_length |].
  split; [| by apply assign_many_dom in H].
  intros i j k Hi Hj.
  destruct (Forall2_lookup_l _ _ _ _ _ Hall Hi) as (vi & -> & Hvi).
  destruct (Forall2_lookup_l _ _ _ _ _ Hall Hj) as (vj & -> & Hvj).
  congruence.
Qed.

(** X9.  Renaming a path again, at any later state of the same map, returns the
    same renamed path and changes nothing any more. *)
Theorem rename_python_module_again path rm o rm' rm'' :
  rename_python_module gen_name path rm = Ok (o, rm') →
  later gen_name rm' rm'' →
  rename_python_module gen_name path rm'' = Ok (o, rm'').
Proof.
  unfold rename_python_module. fold (components path).
  rewrite index_last_components.
  intros H Hl. apply later_subseteq in Hl.
  assert (∀ keys vs,
    assign_many gen_name keys rm = (vs, rm') →
    assign_many gen_name keys rm'' = (vs, rm'')) as Hagain.
  { intros keys vs Hk. apply assign_many_spec in Hk as [_ Hall].
    apply assign_many_known. eapply Forall2_impl; [exact Hall |].
    intros k v Hkv. exact (lookup_weaken _ _ _ _ Hkv Hl). }
  destruct (reserved_leaf _).
  - destruct (assign_many gen_name _ rm) as [rs rm1] eqn:Hrs.
    simplify_eq. by rewrite (Hagain _ _ Hrs).
  - destruct (assign_many gen_name _ rm) as [rs rm1] eqn:Hrs.
    simplify_eq. by rewrite (Hagain _ _ Hrs).
Qed.

(** X10.  The suffix is optional in the input: a path that does not end in
    [.py] is renamed as the same path with [.py] added, with the same
    effect on the map. *)
Theorem rename_python_module_suffix path rm :
  Str.removesuffix ".py" path = path →
  rename_python_module gen_name (path +:+ ".py") rm
  = rename_python_module gen_name path rm.
Proof.
  intros Hp. unfold rename_python_module.
  by rewrite (removesuffix_app ".py" path), Hp.
Qed.

Lemma slash_free_later rm rm' :
  (∀ g, char_free "/" (gen_name g).1 = true) →
  later gen_name rm rm' →
  map_Forall (λ _ v, char_free "/" v = true) (_map rm) →
  map_Forall (λ _ v, char_free "/" v = true) (_map rm').
Proof.
  intros Hgen. induction 1 as [|key rm rm' _ IH]; [done |].
  intros Hrm. apply IH. unfold assign_name.
  destruct (_map rm !! key); [done |].
  specialize (Hgen (rng rm)). destruct (gen_name (rng rm)) as [v g].
  simpl in *. by apply map_Forall_insert_2.
Qed.

Lemma pseudonym_slash_free M keys :
  map_Forall (λ _ v, char_free "/" v = true) M →
  Forall (λ x, char_free "/" x = true) (pseudonym M <$> keys).
Proof.
  intros HM. apply Forall_fmap, Forall_forall. intros k _.
  unfold pseudonym. simpl. destruct (M !! k) as [v|] eqn:Hk; [| done].
  by apply (HM k v).
Qed.

(** X11.  When no pseudonym holds a slash (none in the map, none the name source
    can draw), the renamed path splits into as many components as the
    input path, and the map still holds no slash. *)
Theorem rename_python_module_depth path rm o rm' :
  (∀ g, char_free "/" (gen_name g).1 = true) →
  map_Forall (λ _ v, char_free "/" v = true) (_map rm) →
  rename_python_module gen_name path rm = Ok (o, rm') →
  length (components o) = length (components path)
  ∧ map_Forall (λ _ v, char_free "/" v = true) (_map rm').
Proof.
  intros Hgen Hrm Ho.
  destruct (rename_python_module_spec gen_name path rm)
    as (o' & rm1 & Ho' & Hl & _ & Hwith).
  rewrite Ho in Ho'. simplify_eq.
  pose proof (slash_free_later _ _ Hgen Hl Hrm) as Hrm'.
  split; [| done].
  rewrite (Hwith (_map rm1) (reflexivity _)).
  unfold rename_with, components at 1. rewrite removesuffix_app.
  pose proof (split_not_nil "/" (Str.removesuffix ".py" path)) as Hne.
  fold (components path) in Hne |- *.
  destruct (reserved_leaf _) eqn:Hres.
  - rewrite split_join.
    + rewrite length_app, length_fmap. simpl.
      rewrite (app_removelast_last "" Hne) at 2.
      by rewrite length_app.
    + by destruct (_ <$> _).
    + apply Forall_app. split; [by apply pseudonym_slash_free |].
      constructor; [| done]. unfold reserved_leaf in Hres.
      apply bool_decide_eq_true in Hres.
      apply elem_of_cons in Hres as [->|Hres]; [done |].
      by apply list_elem_of_singleton in Hres as ->.
  - rewrite split_join.
    + by rewrite length_fmap.
    + by destruct (components path).
    + by apply pseudonym_slash_free.
Qed.

(** X12.  The renamer adds to the map exactly the components it renames, and
    keeps every entry the map had. *)
Theorem rename_python_module_dom path rm o rm' :
  rename_python_module gen_name path rm = Ok (o, rm') →
  _map rm ⊆ _map rm'
  ∧ dom (_map rm') = dom (_map rm) ∪ list_to_set (renamed_keys path).
Proof.
  unfold rename_python_module, renamed_keys. fold (components path).
  rewrite index_last_components. intros H.
  destruct (reserved_leaf _).
  - destruct (assign_many gen_name _ rm) as [rs rm1] eqn:Hrs.
    simplify_eq. by apply assign_many_dom in Hrs.
  - destruct (assign_many gen_name _ rm) as [rs rm1] eqn:Hrs.
    simplify_eq. by apply assign_many_dom in Hrs.
Qed.

End RenameMapProperties.

Lemma assign_name_memo_witness :
  assign_name counting_names "pkg" (mkRenameMap 1 {[ "pkg" := "n0" ]})
  = ("n0", mkRenameMap 1 {[ "pkg" := "n0" ]}).
Proof.
  apply (assign_name_memo counting_names "pkg" (RenameMap_new 0) "n0"
           (mkRenameMap 1 {[ "pkg" := "n0" ]}));
    [reflexivity | apply later_refl].
Defined.

Lemma assign_many_consistent_witness :
  assign_many counting_names ["pkg"; "sub"; "pkg"] (RenameMap_new 0)
  = (["n0"; "n1"; "n0"], mkRenameMap 2 {[ "pkg" := "n0"; "sub" := "n1" ]})
  ∧ length ["n0"; "n1"; "n0"] = length ["pkg"; "sub"; "pkg"].
Proof.
  assert (assign_many counting_names ["pkg"; "sub"; "pkg"] (RenameMap_new 0)
          = (["n0"; "n1"; "n0"],
             mkRenameMap 2 {[ "pkg" := "n0"; "sub" := "n1" ]})) as H
    by reflexivity.
  split; [exact H |].
  exact (proj1 (assign_many_consistent counting_names _ _ _ _ H)).
Defined.

Lemma rename_python_module_again_witness :
  rename_python_module counting_names "pkg/a.py"
    (mkRenameMap 2 {[ "pkg" := "n0"; "a" := "n1" ]})
  = Ok ("n0/n1.py", mkRenameMap 2 {[ "pkg" := "n0"; "a" := "n1" ]}).
Proof.
  apply (rename_python_module_again counting_names "pkg/a.py"
           (RenameMap_new 0) "n0/n1.py"
           (mkRenameMap 2 {[ "pkg" := "n0"; "a" := "n1" ]}));
    [reflexivity | apply later_refl].
Defined.

Lemma rename_python_module_suffix_witness :
  rename_python_module counting_names "pkg/a.py" (RenameMap_new 0)
  = rename_python_module counting_names "pkg/a" (RenameMap_new 0).
Proof.
  apply (rename_python_module_suffix counting_names "pkg/a"). reflexivity.
Defined.

Lemma rename_python_module_depth_witness :
  length (components "x/x/__init__.py")
  = length (components "pkg/sub/__init__.py").
Proof.
  refine (proj1 (rename_python_module_depth fixed_name
                   "pkg/sub/__init__.py" (RenameMap_new ())
                   "x/x/__init__.py"
                   (mkRenameMap () {[ "pkg" := "x"; "sub" := "x" ]})
                   (λ _, eq_refl) (map_Forall_empty _) _)).
  reflexivity.
Defined.

Lemma rename_python_module_dom_witness :
  dom ({[ "pkg" := "n0"; "sub" := "n1" ]} : gmap string string)
  = dom (∅ : gmap string string)
    ∪ list_to_set (renamed_keys "pkg/sub/__init__.py").
Proof.
  refine (proj2 (rename_python_module_dom counting_names
                   "pkg/sub/__init__.py" (RenameMap_new 0)
                   "n0/n1/__init__.py"
                   (mkRenameMap 2 {[ "pkg" := "n0"; "sub" := "n1" ]}) _)).
  reflexivity.
Defined.

(** ** Import synthesis, the handler and the pipeline *)

Lemma render_imports_from_skip seen deps :
  render_imports_from seen (filter (λ d, (edge_of d).2 ≠ "__init__") deps)
  = render_imports_from seen deps.
Proof.
  revert seen. induction deps as [|dep deps IH]; intros seen; [done |].
  rewrite filter_cons. case_decide as Hd.
  - rewrite !render_imports_from_cons. cbv zeta.
    by rewrite !IH.
  - rewrite render_imports_from_cons. cbv zeta.
    rewrite decide_True by done. apply IH.
Qed.

(** X13.  Edges whose leaf is [__init__] leave no trace in the import block:
    without them the same lines come out, with the same aliases. *)
Theorem render_imports_skips_init deps :
  render_imports (filter (λ d, (edge_of d).2 ≠ "__init__") deps)
  = render_imports deps.
Proof. apply render_imports_from_skip. Qed.

Lemma join_unlines lines : Str.join newline (lines ++ [""]) = unlines lines.
Proof.
  induction lines as [|l ls IH]; [done |].
  simpl app. destruct (ls ++ [""]) as [|y ys] eqn:Hy; [by destruct ls |].
  rewrite join_cons, IH. done.
Qed.

Section PipelineProperties.

Context {G : Type} (gen_name : G → string * G).
Context (set_iter : gset string → list string).
Context (set_iter_perm : ∀ X, set_iter X ≡ₚ elements X).
Context {Any : Type}.

(** X14.  The content the handler writes is the import lines of the renamed
    dependencies, every line closed by a newline; it is empty exactly when
    no line is rendered. *)
Theorem handler_content (info : TargetInfo Any) tt rm :
  ∃ out rm' lines,
    handle_python_module gen_name set_iter info tt rm = Ok (out, rm')
    ∧ render_imports (dependencies out) = Ok lines
    ∧ content out = unlines lines
    ∧ (content out = "" ↔ lines = []).
Proof.
  destruct (handle_python_module_spec gen_name set_iter info tt rm)
    as (out & rm' & Ho & _ & Han).
  destruct (Han (_map rm') (reflexivity _))
    as (_ & _ & _ & _ & _ & lines & Hlines & Hcontent).
  exists out, rm', lines. rewrite Hcontent, join_unlines.
  repeat split; try done.
  - destruct lines as [|l ls]; [done |]. simpl. intros Hnil.
    apply (f_equal String.length) in Hnil.
    rewrite !length_app_s in Hnil. simpl in Hnil. lia.
  - by intros ->.
Qed.

(** X15.  The output dependency list has one entry per distinct inferred edge:
    repetitions in [dependencies] collapse. *)
Theorem handler_dedups (info : TargetInfo Any) tt rm :
  ∃ out rm',
    handle_python_module gen_name set_iter info tt rm = Ok (out, rm')
    ∧ length (dependencies out)
      = size (list_to_set (dependencies info)
              ∖ list_to_set (dependencies_raw info) : gset string).
Proof.
  destruct (handle_python_module_spec gen_name set_iter info tt rm)
    as (out & rm' & Ho & _ & Han).
  destruct (Han (_map rm') (reflexivity _)) as (_ & _ & Hdeps & _).
  exists out, rm'. split; [done |].
  rewrite Hdeps, length_fmap. unfold kept_edges.
  by rewrite set_iter_perm.
Qed.

Lemma rename_targets_from_filter (peek_data : list (TargetInfo Any)) rm :
  rename_targets_from gen_name set_iter rm (filter eligible peek_data)
  = rename_targets_from gen_name set_iter rm peek_data.
Proof.
  revert rm. induction peek_data as [|ti rest IH]; intros rm; [done |].
  rewrite filter_cons. case_decide as He.
  - cbn [rename_targets_from]. rewrite eligible_dom.
    destruct (eligible ti); [| done].
    destruct (type_to_handler gen_name set_iter !! target_type ti)
      as [h|]; [| done].
    destruct (h ti (target_type ti) rm) as [[twc rm1]|]; [| done].
    by rewrite IH.
  - rewrite IH. cbn [rename_targets_from]. rewrite eligible_dom.
    apply Is_true_false in He. by rewrite He.
Qed.

(** X16.  Records of other types do not touch the run: without them the
    pipeline returns the same result. *)
Theorem pipeline_ignores_other_types g (peek_data : list (TargetInfo Any)) :
  rename_python_targets gen_name set_iter g (filter eligible peek_data)
  = rename_python_targets gen_name set_iter g peek_data.
Proof.
  unfold rename_python_targets. by rewrite rename_targets_from_filter.
Qed.

(** X17.  The dependency graph keeps its shape: when a record has an inferred
    edge that is, as a string, the address path of another eligible
    record, the output of the first lists the output path of the second
    among its dependencies. *)
Theorem pipeline_keeps_edges g (peek_data : list (TargetInfo Any))
    outs i j ti tj (oi oj : TargetWithContent Any) :
  rename_python_targets gen_name set_iter g peek_data = Ok outs →
  filter eligible peek_data !! i = Some ti →
  filter eligible peek_data !! j = Some tj →
  outs !! i = Some oi → outs !! j = Some oj →
  path (address tj) ∈ dependencies ti →
  path (address tj) ∉ dependencies_raw ti →
  path (address oj) ∈ dependencies oi.
Proof.
  intros Hrun Hi Hj Hoi Hoj Hdep Hraw. unfold rename_python_targets in Hrun.
  destruct (rename_targets_from_spec gen_name set_iter peek_data
              (RenameMap_new g)) as (outs' & rm & Ho & _ & Hall).
  rewrite Ho in Hrun. simplify_eq.
  specialize (Hall (_map rm) (reflexivity _)).
  destruct (Forall2_lookup_lr _ _ _ _ _ _ Hall Hi Hoi) as (_ & _ & Hdeps & _).
  destruct (Forall2_lookup_lr _ _ _ _ _ _ Hall Hj Hoj) as (Haddr & _).
  rewrite Hdeps, Haddr. simpl. apply list_elem_of_fmap_2.
  unfold kept_edges. rewrite set_iter_perm, elem_of_elements.
  by rewrite elem_of_difference, !elem_of_list_to_set.
Qed.

(** X18.  Directory sharing across targets: two eligible records whose paths
    start with the same directory get output paths that start with the same
    renamed directory. *)
Theorem pipeline_shares_directories g (peek_data : list (TargetInfo Any))
    outs i j ti tj (oi oj : TargetWithContent Any) d r1 r2 :
  rename_python_targets gen_name set_iter g peek_data = Ok outs →
  filter eligible peek_data !! i = Some ti →
  filter eligible peek_data !! j = Some tj →
  outs !! i = Some oi → outs !! j = Some oj →
  components (path (address ti)) = d :: r1 → r1 ≠ [] →
  components (path (address tj)) = d :: r2 → r2 ≠ [] →
  ∃ c t1 t2,
    path (address oi) = c +:+ "/" +:+ t1
    ∧ path (address oj) = c +:+ "/" +:+ t2.
Proof.
  intros Hrun Hi Hj Hoi Hoj Hc1 Hr1 Hc2 Hr2.
  unfold rename_python_targets in Hrun.
  destruct (rename_targets_from_spec gen_name set_iter peek_data
              (RenameMap_new g)) as (outs' & rm & Ho & _ & Hall).
  rewrite Ho in Hrun. simplify_eq.
  specialize (Hall (_map rm) (reflexivity _)).
  destruct (Forall2_lookup_lr _ _ _ _ _ _ Hall Hi Hoi) as (Ha1 & _).
  destruct (Forall2_lookup_lr _ _ _ _ _ _ Hall Hj Hoj) as (Ha2 & _).
  destruct (rename_with_leading (_map rm) _ d r1 Hc1 Hr1) as [t1 Ht1].
  destruct (rename_with_leading (_map rm) _ d r2 Hc2 Hr2) as [t2 Ht2].
  exists (pseudonym (_map rm) d), t1, t2.
  rewrite Ha1, Ha2. simpl. by rewrite Ht1, Ht2.
Qed.

End PipelineProperties.

Lemma handler_dedups_witness :
  ∃ out rm',
    handle_python_module counting_names elements example_target
      "python_source" (RenameMap_new 0) = Ok (out, rm')
    ∧ length (dependencies out) = 2.
Proof.
  destruct (handler_dedups counting_names elements
              (λ X, reflexivity (elements X))
              example_target "python_source" (RenameMap_new 0))
    as (out & rm' & Ho & Hlen).
  exists out, rm'. split; [exact Ho |].
  rewrite Hlen. vm_compute. reflexivity.
Defined.

Lemma pipeline_keeps_edges_witness :
  "n0/n2.py" ∈ ["n0/n2.py"].
Proof.
  refine (pipeline_keeps_edges counting_names elements
            (λ X, reflexivity (elements X)) 0 example_peek example_outs
            0 1 _ _ _ _ eq_refl eq_refl eq_refl eq_refl eq_refl _ _).
  - apply list_elem_of_here.
  - apply not_elem_of_nil.
Defined.

Lemma pipeline_shares_directories_witness :
  ∃ c t1 t2, "n0/n1.py" = c +:+ "/" +:+ t1 ∧ "n0/n2.py" = c +:+ "/" +:+ t2.
Proof.
  refine (pipeline_shares_directories counting_names elements 0
            example_peek example_outs 0 1 _ _ _ _ "pkg" ["a"] ["helpers"]
            eq_refl eq_refl eq_refl eq_refl eq_refl eq_refl _ eq_refl _);
    discriminate.
Defined.

(** ** relative_path_to_components *)




(** ** TargetInfo.from_dict *)

Section FromDictProperties.

Context {Any : Type} (truthy : Any → bool).

(** X20.  The required keys, in the order they are popped: a missing [address]
    raises before anything else, an address that does not parse raises
    before the other keys are looked at, then [target_type] and
    [dependencies] are missed in this order. *)
Theorem from_dict_required_keys (d : gmap string (value Any)) :
  (d !! "address" = None →
   from_dict truthy d = Done (Raise (KeyError "address")))
  ∧ (∀ s e, d !! "address" = Some (VStr s) → from_str s = Raise e →
            from_dict truthy d = Done (Raise e))
  ∧ (∀ s a, d !! "address" = Some (VStr s) → from_str s = Ok a →
            d !! "target_type" = None →
            from_dict truthy d = Done (Raise (KeyError "target_type")))
  ∧ (∀ s a, d !! "address" = Some (VStr s) → from_str s = Ok a →
            is_Some (d !! "target_type") → d !! "dependencies" = None →
            from_dict truthy d = Done (Raise (KeyError "dependencies"))).
Proof.
  unfold from_dict. repeat split.
  - by intros ->.
  - by intros s e -> ->.
  - intros s a -> -> Ht. by rewrite lookup_delete_ne, Ht.
  - intros s a -> -> [vt Ht] Hd.
    rewrite lookup_delete_ne, Ht by done.
    by rewrite !lookup_delete_ne, Hd.
Qed.

(** X21.  What a decoded record holds: the parsed address, the target type, the
    two dependency lists with [None] (and, for [dependencies_raw], a
    missing key) read as empty, and in [other] every field of the input
    but the four that were popped. *)
Theorem from_dict_decodes (d : gmap string (value Any)) ti :
  from_dict truthy d = Done (Ok ti) →
  (∃ s, d !! "address" = Some (VStr s) ∧ from_str s = Ok (address ti))
  ∧ d !! "target_type" = Some (VStr (target_type ti))
  ∧ (∃ vd, d !! "dependencies" = Some vd
           ∧ seq_or_empty truthy vd = Some (dependencies ti))
  ∧ seq_or_empty truthy (default VNone (d !! "dependencies_raw"))
    = Some (dependencies_raw ti)
  ∧ ∀ k, other ti !! k = if decide (k ∈ popped_keys) then None else d !! k.
Proof.
  unfold from_dict.
  destruct (d !! "address") as [[|s| |]|] eqn:Ha; try done.
  destruct (from_str s) as [a|] eqn:Hs; [| done].
  rewrite lookup_delete_ne by done.
  destruct (d !! "target_type") as [vt|] eqn:Ht; [| done].
  rewrite !lookup_delete_ne by done.
  destruct (d !! "dependencies") as [vd|] eqn:Hd; [| done].
  destruct vt as [|t| |]; try (by repeat case_match).
  destruct (seq_or_empty truthy vd) as [deps|] eqn:Hdeps; [| done].
  destruct (seq_or_empty truthy (default VNone (d !! "dependencies_raw")))
    as [raw|] eqn:Hraw; [| done].
  intros; simplify_eq. simpl.
  repeat split; eauto.
  intros k. unfold popped_keys. rewrite !lookup_delete.
  repeat case_decide; try done; set_solver.
Qed.

(** X22.  Loading is all or nothing: the records come out exactly when every
    input record decodes, one [TargetInfo] per record and in order. *)
Theorem load_peek_records_all (ds : list (gmap string (value Any))) tis :
  load_peek_records truthy ds = Done (Ok tis)
  ↔ Forall2 (λ d ti, from_dict truthy d = Done (Ok ti)) ds tis.
Proof.
  revert tis. induction ds as [|d ds IH]; intros tis; simpl.
  - split; [intros; simplify_eq; constructor | by inversion 1].
  - split.
    + destruct (from_dict truthy d) as [[ti|]|] eqn:Hd; try done.
      destruct (load_peek_records truthy ds) as [[tis'|]|]; try done.
      intros; simplify_eq. constructor; [done | by apply IH].
    + inversion 1 as [|? ti ? tis' Hd Hrest]; subst.
      rewrite Hd. apply IH in Hrest. by rewrite Hrest.
Qed.

End FromDictProperties.

Lemma from_dict_decodes_witness :
  from_dict (λ _ : unit, true) example_dict
  = Done (Ok (mkTargetInfo (mkAddress "pkg/a.py" "" "") "python_source"
                [] [] {[ "sources" := VList ["a.py"] ]}))
  ∧ example_dict !! "target_type" = Some (VStr "python_source").
Proof.
  assert (from_dict (λ _ : unit, true) example_dict
          = Done (Ok (mkTargetInfo (mkAddress "pkg/a.py" "" "")
                        "python_source" [] []
                        {[ "sources" := VList ["a.py"] ]}))) as H
    by reflexivity.
  split; [exact H |].
  exact (proj1 (proj2 (from_dict_decodes _ _ _ H))).
Defined.

Lemma from_dict_required_keys_witness :
  from_dict (λ _ : unit, true) (delete "dependencies" example_dict)
  = Done (Raise (KeyError "dependencies")).
Proof.
  apply (proj2 (proj2 (proj2
           (from_dict_required_keys (λ _ : unit, true)
              (delete "dependencies" example_dict))))
           "//pkg/a.py:a.py" (mkAddress "pkg/a.py" "" ""));
    [reflexivity | reflexivity | by eexists | reflexivity].
Defined.

(** The parts of [pkg/sub/mod.py] come out as they are. *)
Example relative_path_example :
  relative_path_to_components ["pkg"; "sub"; "mod.py"]
  = Ok ["pkg"; "sub"; "mod.py"].
Proof. reflexivity. Qed.
